(** * eztv: the torrent stream of the EZTV API client

    A shallow embedding of the Go package [eztv] (client construction,
    [GetTorrents], [TorrentStream] and [fullStreamResync]) and the
    properties of its streaming engine.

    The goroutine started by [TorrentStream] talks to three things outside
    the package: the HTTP transport behind [GetTorrents], the timer of
    [time.After] and the context [ctx].  They are modelled by a script of
    environment events that the goroutine consumes while it is blocked, and
    everything the goroutine does is recorded in a trace of actions.

    Modelling choices:
    - the consumer of the channel is always ready to receive, so a send
      completes (a consumer that stops reading would only cut a trace
      short);
    - the recheck interval is positive, so that a select entered with a
      cancelled context takes [ctx.Done()] (Go chooses at random between
      cases that are ready at once);
    - Go's [int] is [Z]: IDs and counts are only compared and copied, and
      the one computation on them goes through [float64], modelled with
      the binary64 format of [SpecFloat];
    - [q.Encode()], the transport and the JSON decoder are the standard
      library's: the request is kept as the values added to its query, and
      the outcome of [c.client.Do] and of the decoding comes from the
      script. *)

From Stdlib Require Import ZArith List String Ascii Lia Bool Sorted.
From Stdlib Require Import DecimalString DecimalZ DecimalPos.
From Stdlib Require Import Floats.SpecFloat.
Import ListNotations.
Open Scope string_scope.
Open Scope list_scope.
Open Scope Z_scope.

(** ** Data model (structs.go) *)

Module Torrent.
Record t := mk {
  ID : Z;
  Hash : string;
  Filename : string;
  EpisodeURL : string;
  TorrentURL : string;
  MagnetURL : string;
  Title : string;
  ImdbID : string;
  Season : string;
  Episode : string;
  SmallScreenshotURL : string;
  LargeScreenshotURL : string;
  Seeds : Z;
  Peers : Z;
  DateReleasedUnix : Z;
  SizeBytes : string
}.

(** The zero value of the struct, as Go gives to an omitted field. *)
Definition zero : t :=
  mk 0 "" "" "" "" "" "" "" "" "" "" "" 0 0 0 "".
End Torrent.

Module Page.
Record t := mk {
  ImdbID : string;
  TorrentsCount : Z;
  Limit : Z;
  Page : Z;
  Torrents : list Torrent.t
}.
End Page.

(** Go's [error] values: the package's own sentinel and whatever the
    transport or the JSON decoder reports. *)
Inductive error : Type :=
| ErrMissingImdbID
| ErrUpstream (msg : string).

Module StreamTorrent.
(** [StreamTorrent] embeds a [Torrent] next to [Err]; [Err = nil] is [None]. *)
Record t := mk {
  Torrent : Torrent.t;
  Err : option error
}.
End StreamTorrent.

Module URLOptions.
Record t := mk {
  Page : Z;
  Limit : Z;
  ImdbID : string
}.
End URLOptions.

Module StreamOptions.
Record t := mk {
  ImdbID : string;
  LastTorrentID : Z;
  RecheckInterval : Z   (* time.Duration: nanoseconds *)
}.
End StreamOptions.

(** ** Constants *)

Definition EZTVBaseURL : string := "https://eztv.re/api".
Definition Minute : Z := 60 * 1000000000.
Definition StreamRecheckInterval : Z := 5 * Minute.
Definition MaxEZTVAPILimit : Z := 100.

(** ** Client and options (options.go) *)

Inductive http_Client : Type :=
| DefaultClient
| CustomClient (tag : nat).

Module Client.
Record t := mk {
  client : http_Client;
  baseURL : string
}.
End Client.

Definition Option := Client.t -> Client.t.

Definition WithHTTPClient (client : http_Client) : Option :=
  fun c => Client.mk client (Client.baseURL c).

Definition WithBaseURL (url : string) : Option :=
  fun c => Client.mk (Client.client c) url.

Definition New (ops : list Option) : Client.t :=
  fold_left (fun client op => op client) ops
            (Client.mk DefaultClient EZTVBaseURL).

(** ** Library functions used by the package *)

(** [strings.TrimPrefix]. *)
Definition TrimPrefix (s pre : string) : string :=
  if String.prefix pre s
  then String.substring (String.length pre)
                        (String.length s - String.length pre) s
  else s.

(** [strconv.Itoa]. *)
Definition Itoa (n : Z) : string := NilZero.string_of_int (Z.to_int n).

(** [float64(n)] for a Go [int], [x / y] on [float64], [math.Ceil] and the
    conversion [int(x)], over the binary64 format of [SpecFloat]. *)
Definition float64_of_int (n : Z) : spec_float :=
  binary_normalize 53 1024 n 0 false.

Definition float64_div : spec_float -> spec_float -> spec_float :=
  SFdiv 53 1024.

Definition math_Ceil (x : spec_float) : spec_float :=
  match x with
  | S754_finite s m e =>
      if (0 <=? e)%Z then x
      else
        let c := (- ((- cond_Zopp s (Zpos m)) / 2 ^ (- e)))%Z in
        if (c =? 0)%Z then S754_zero s else binary_normalize 53 1024 c 0 s
  | _ => x
  end.

Definition int_of_float64 (x : spec_float) : Z :=
  match x with
  | S754_finite s m e =>
      if (0 <=? e)%Z then (cond_Zopp s (Zpos m) * 2 ^ e)%Z
      else Z.quot (cond_Zopp s (Zpos m)) (2 ^ (- e))
  | _ => 0
  end.

(** [int(math.Ceil(float64(count) / MaxEZTVAPILimit))]. *)
Definition pageCount (count : Z) : Z :=
  int_of_float64
    (math_Ceil (float64_div (float64_of_int count)
                            (float64_of_int MaxEZTVAPILimit))).

(** ** The environment of the goroutine *)

Definition Response : Type := (error + Page.t)%type.

(** What happens outside while the goroutine is blocked. *)
Inductive EnvEvent : Type :=
| EvCancel                     (* the caller cancels [ctx] *)
| EvTimer                      (* the pending [time.After] timer fires *)
| EvResponse (r : Response).   (* [c.client.Do] and the decoding finish *)

(** The HTTP request built by [GetTorrents]: [q] holds the values added
    to the query, in the order of the [q.Add] calls. *)
Module Request.
Record t := mk {
  Method : string;
  URL : string;
  Query : list (string * string)
}.
End Request.

(** What the goroutine (or, for [ActCancelled], its context) does. *)
Inductive Action : Type :=
| ActGo                                           (* [go func() { ... }()] *)
| ActRequest (via : http_Client) (o : URLOptions.t) (req : Request.t)
                                                  (* request handed to [c.client] *)
| ActResponse (o : URLOptions.t) (r : Response)   (* [GetTorrents] returns *)
| ActSend (ev : StreamTorrent.t)                  (* [torrentsCh <- ev] completes *)
| ActSetCursor (v : Z)                            (* [lastTorrentID = v] *)
| ActAfter (d : Z)                                (* [time.After(d)] *)
| ActTimer                                        (* select takes the timer case *)
| ActCtxDone                                      (* select takes [<-ctx.Done()] *)
| ActClose                                        (* deferred [close(torrentsCh)] *)
| ActCancelled.                                   (* [ctx] becomes cancelled *)

Record Env := mkEnv {
  script : list EnvEvent;
  ctx_done : bool
}.

(** ** A monad for blocking code

    A computation runs against the environment, appends to the trace and
    either returns, stays blocked because the environment has nothing left
    for it, or runs out of loop fuel. *)

Inductive Outcome (A : Type) : Type :=
| Ret (a : A)
| Blocked
| OutOfFuel.
Arguments Ret {A} a.
Arguments Blocked {A}.
Arguments OutOfFuel {A}.

Definition M (A : Type) : Type := Env -> list Action * Outcome A * Env.

Definition ret {A} (a : A) : M A := fun e => ([], Ret a, e).

Definition bind {A B} (m : M A) (f : A -> M B) : M B :=
  fun e =>
    match m e with
    | (tr1, Ret a, e1) =>
        match f a e1 with
        | (tr2, r, e2) => (tr1 ++ tr2, r, e2)
        end
    | (tr1, Blocked, e1) => (tr1, Blocked, e1)
    | (tr1, OutOfFuel, e1) => (tr1, OutOfFuel, e1)
    end.

Definition act (a : Action) : M unit := fun e => ([a], Ret tt, e).

Declare Scope go_scope.
Delimit Scope go_scope with go.
Notation "x <- m ;; k" := (bind m (fun x => k))
  (at level 61, m at next level, right associativity) : go_scope.
Notation "m ;; k" := (bind m (fun _ => k))
  (at level 61, right associativity) : go_scope.
Open Scope go_scope.

Definition trace_of {A} (x : list Action * Outcome A * Env) : list Action :=
  fst (fst x).
Definition outcome_of {A} (x : list Action * Outcome A * Env) : Outcome A :=
  snd (fst x).
Definition env_of {A} (x : list Action * Outcome A * Env) : Env := snd x.

(** Cancellations that arrive while the goroutine is blocked are absorbed
    by whichever operation it is blocked in. *)
Fixpoint absorb_events (s : list EnvEvent) (done : bool) : list Action * Env :=
  match s with
  | EvCancel :: s' =>
      let '(tr, e) := absorb_events s' true in (ActCancelled :: tr, e)
  | _ => ([], mkEnv s done)
  end.

Definition absorb : M unit :=
  fun e => let '(tr, e') := absorb_events (script e) (ctx_done e) in
           (tr, Ret tt, e').

(** [torrentsCh <- ev]: a plain send on the unbuffered channel.  The
    consumer is taken to be receiving; the send itself looks at nothing
    but the channel. *)
Definition send (ev : StreamTorrent.t) : M unit :=
  absorb ;; act (ActSend ev).

(** [lastTorrentID = v]. *)
Definition setCursor (v : Z) : M unit := act (ActSetCursor v).

(** The two cases of the [select] of the poll loop. *)
Inductive SelectCase : Type := CaseCtxDone | CaseTimer.

Definition awaitTimer : M SelectCase :=
  fun e =>
    if ctx_done e then ([ActCtxDone], Ret CaseCtxDone, e)
    else
      match script e with
      | EvTimer :: s => ([ActTimer], Ret CaseTimer, mkEnv s false)
      | _ => ([], Blocked, e)
      end.

(** [select { case <-ctx.Done(): ...; case <-time.After(d): ... }]:
    [time.After(d)] is evaluated on entry, then the goroutine waits for
    [ctx.Done()] or the timer, whichever the environment delivers first.
    With the context cancelled on entry the select takes [ctx.Done()]: so
    does Go for [0 < d], when the timer cannot be ready yet; for [d <= 0]
    Go may take either case, and what is proved of the choice assumes
    [0 < d]. *)
Definition selectDoneOrAfter (d : Z) : M SelectCase :=
  act (ActAfter d) ;; absorb ;; awaitTimer.

(** ** client.go: GetTorrents *)

Definition addPage (o : URLOptions.t) (q : list (string * string)) :=
  if URLOptions.Page o =? 0 then q
  else q ++ [("page", Itoa (URLOptions.Page o))].

Definition addLimit (o : URLOptions.t) (q : list (string * string)) :=
  if URLOptions.Limit o =? 0 then q
  else q ++ [("limit", Itoa (URLOptions.Limit o))].

Definition addImdbID (o : URLOptions.t) (q : list (string * string)) :=
  if String.eqb (URLOptions.ImdbID o) "" then q
  else q ++ [("imdb_id", TrimPrefix (URLOptions.ImdbID o) "tt")].

Definition buildRequest (c : Client.t) (urlOptions : URLOptions.t) : Request.t :=
  let url := (EZTVBaseURL ++ "/get-torrents")%string in
  let q := addPage urlOptions [] in
  let q := addLimit urlOptions q in
  let q := addImdbID urlOptions q in
  Request.mk "GET" url q.

(** The transport's answer ([c.client.Do] followed by JSON decoding) comes
    from the script. *)
Definition awaitResponse (o : URLOptions.t) : M Response :=
  fun e =>
    match script e with
    | EvResponse r :: s => ([ActResponse o r], Ret r, mkEnv s (ctx_done e))
    | _ => ([], Blocked, e)
    end.

Definition GetTorrents (c : Client.t) (urlOptions : URLOptions.t) : M Response :=
  act (ActRequest (Client.client c) urlOptions (buildRequest c urlOptions)) ;;
  absorb ;;
  awaitResponse urlOptions.

(** ** client.go: fullStreamResync *)

Definition okEvent (t : Torrent.t) : StreamTorrent.t :=
  StreamTorrent.mk t None.
Definition errEvent (err : error) : StreamTorrent.t :=
  StreamTorrent.mk Torrent.zero (Some err).

(** [for _, torrent := range page.Torrents { ... }] *)
Fixpoint emitTorrents (torrents : list Torrent.t) (lastTorrentID : Z) : M Z :=
  match torrents with
  | [] => ret lastTorrentID
  | torrent :: rest =>
      send (okEvent torrent) ;;
      setCursor (Torrent.ID torrent) ;;
      emitTorrents rest (Torrent.ID torrent)
  end.

(** [for i := pages; i > 0; i-- { ... }] *)
Fixpoint resyncBackwards (c : Client.t) (imdbID : string) (i : nat)
         (lastTorrentID : Z) : M Z :=
  match i with
  | O => ret lastTorrentID
  | S i' =>
      r <- GetTorrents c (URLOptions.mk (Z.of_nat i) MaxEZTVAPILimit imdbID) ;;
      match r with
      | inl err => send (errEvent err) ;; ret lastTorrentID
      | inr page =>
          last <- emitTorrents (rev (Page.Torrents page)) lastTorrentID ;;
          resyncBackwards c imdbID i' last
      end
  end.

Definition fullStreamResync (c : Client.t) (imdbID : string) : M Z :=
  r <- GetTorrents c (URLOptions.mk 1 1 imdbID) ;;
  match r with
  | inl err => send (errEvent err) ;; ret 0
  | inr page =>
      if Page.TorrentsCount page =? 0 then ret 0
      else
        let pages := pageCount (Page.TorrentsCount page) in
        resyncBackwards c imdbID (Z.to_nat pages) 0
  end.

(** ** client.go: TorrentStream *)

(** The [for { select { ... } }] loop; [fuel] bounds the iterations. *)
Fixpoint pollLoop (fuel : nat) (c : Client.t) (imdbID : string)
         (recheckInterval : Z) (lastTorrentID : Z) : M unit :=
  match fuel with
  | O => fun e => ([], OutOfFuel, e)
  | S fuel' =>
      sel <- selectDoneOrAfter recheckInterval ;;
      match sel with
      | CaseCtxDone => ret tt
      | CaseTimer =>
          r <- GetTorrents c (URLOptions.mk 1 1 imdbID) ;;
          match r with
          | inl err =>
              send (errEvent err) ;;
              pollLoop fuel' c imdbID recheckInterval lastTorrentID
          | inr page =>
              match Page.Torrents page with
              | [] => pollLoop fuel' c imdbID recheckInterval lastTorrentID
              | t0 :: _ =>
                  if Torrent.ID t0 <=? lastTorrentID
                  then pollLoop fuel' c imdbID recheckInterval lastTorrentID
                  else
                    setCursor (Torrent.ID t0) ;;
                    send (okEvent t0) ;;
                    pollLoop fuel' c imdbID recheckInterval (Torrent.ID t0)
              end
          end
      end
  end.

(** The body of the goroutine. *)
Definition streamBody (fuel : nat) (c : Client.t)
           (streamOptions : StreamOptions.t) : M unit :=
  let lastTorrentID := StreamOptions.LastTorrentID streamOptions in
  let imdbID := TrimPrefix (StreamOptions.ImdbID streamOptions) "tt" in
  if String.eqb imdbID "" then send (errEvent ErrMissingImdbID)
  else
    let recheckInterval :=
      if StreamOptions.RecheckInterval streamOptions =? 0
      then StreamRecheckInterval
      else StreamOptions.RecheckInterval streamOptions in
    lastTorrentID <-
      (if lastTorrentID =? 0
       then (v <- fullStreamResync c imdbID ;; setCursor v ;; ret v)
       else ret lastTorrentID) ;;
    pollLoop fuel c imdbID recheckInterval lastTorrentID.

(** [defer close(torrentsCh)] runs when the body returns. *)
Definition deferClose (body : M unit) : M unit :=
  body ;; act ActClose.

(** Every poll iteration that does not return consumes a timer event, so
    one more iteration than the script has events is enough. *)
Definition TorrentStream (c : Client.t) (streamOptions : StreamOptions.t)
  : M unit :=
  fun e =>
    (act ActGo ;;
     deferClose (streamBody (S (List.length (script e))) c streamOptions)) e.

(** ** Reading a trace *)

Definition sent (tr : list Action) : list StreamTorrent.t :=
  flat_map (fun a => match a with ActSend ev => [ev] | _ => [] end) tr.

(** The successful events: those with [Err == nil]. *)
Definition items (tr : list Action) : list Torrent.t :=
  flat_map (fun a => match a with
                     | ActSend (StreamTorrent.mk t None) => [t]
                     | _ => []
                     end) tr.

Definition errors (tr : list Action) : list error :=
  flat_map (fun a => match a with
                     | ActSend (StreamTorrent.mk _ (Some err)) => [err]
                     | _ => []
                     end) tr.

Definition calls (tr : list Action) : list URLOptions.t :=
  flat_map (fun a => match a with ActRequest _ o _ => [o] | _ => [] end) tr.

Definition requests (tr : list Action) : list Request.t :=
  flat_map (fun a => match a with ActRequest _ _ req => [req] | _ => [] end) tr.

Definition responses (tr : list Action) : list (URLOptions.t * Response) :=
  flat_map (fun a => match a with ActResponse o r => [(o, r)] | _ => [] end) tr.

Definition cursors (tr : list Action) : list Z :=
  flat_map (fun a => match a with ActSetCursor v => [v] | _ => [] end) tr.

Definition timers (tr : list Action) : list Z :=
  flat_map (fun a => match a with ActAfter d => [d] | _ => [] end) tr.

Definition spawned (tr : list Action) : nat :=
  List.length (filter (fun a => match a with ActGo => true | _ => false end) tr).

Definition ids (l : list Torrent.t) : list Z := map Torrent.ID l.

(** The fetches with [Limit = MaxEZTVAPILimit] are those of the resync;
    [resyncItems] lists what their pages hold, each page reversed, in the
    order the pages were fetched. *)
Definition resyncPage (x : URLOptions.t * Response) : list Torrent.t :=
  match snd x with
  | inr page =>
      if URLOptions.Limit (fst x) =? MaxEZTVAPILimit
      then rev (Page.Torrents page) else []
  | inl _ => []
  end.

Definition resyncItems (tr : list Action) : list Torrent.t :=
  flat_map resyncPage (responses tr).

(** The trace without the cancellations of the context. *)
Definition isCancelled (a : Action) : bool :=
  match a with ActCancelled => true | _ => false end.

Definition visible (tr : list Action) : list Action :=
  filter (fun a => negb (isCancelled a)) tr.

(** The page fetcher of the spec: page [p] of size [limit] out of the
    upstream list [all], newest first. *)
Definition paginate (all : list Torrent.t) (p limit : nat) : list Torrent.t :=
  firstn limit (skipn ((p - 1) * limit) all).

(** ** Vocabulary of the proofs, example streams and the claims as stated *)

(** [absorbed k e e']: the goroutine has absorbed [k] cancellations. *)
Definition absorbed (k : nat) (e e' : Env) : Prop :=
  script e = repeat EvCancel k ++ script e' /\
  ctx_done e' = ctx_done e || (0 <? k)%nat /\
  (forall s, script e' <> EvCancel :: s) /\
  (k = O -> e' = e).

Definition pollCall (imdbID : string) : URLOptions.t :=
  URLOptions.mk 1 1 imdbID.

(** What one iteration that goes on to the next one has done. *)
Inductive Tick (c : Client.t) (imdbID : string) (d cur : Z)
  : list Action -> Z -> Prop :=
| TickFailed err tr0 :
    visible tr0 =
      [ActAfter d; ActTimer;
       ActRequest (Client.client c) (pollCall imdbID)
         (buildRequest c (pollCall imdbID));
       ActResponse (pollCall imdbID) (inl err); ActSend (errEvent err)] ->
    Tick c imdbID d cur tr0 cur
| TickNothingNew page tr0 :
    visible tr0 =
      [ActAfter d; ActTimer;
       ActRequest (Client.client c) (pollCall imdbID)
         (buildRequest c (pollCall imdbID));
       ActResponse (pollCall imdbID) (inr page)] ->
    (Page.Torrents page = [] \/
     exists t0 ts, Page.Torrents page = t0 :: ts /\ Torrent.ID t0 <= cur) ->
    Tick c imdbID d cur tr0 cur
| TickNew page t0 ts tr0 :
    visible tr0 =
      [ActAfter d; ActTimer;
       ActRequest (Client.client c) (pollCall imdbID)
         (buildRequest c (pollCall imdbID));
       ActResponse (pollCall imdbID) (inr page);
       ActSetCursor (Torrent.ID t0); ActSend (okEvent t0)] ->
    Page.Torrents page = t0 :: ts ->
    cur < Torrent.ID t0 ->
    Tick c imdbID d cur tr0 (Torrent.ID t0).

Definition emitted (t : Torrent.t) : list Action :=
  [ActSend (okEvent t); ActSetCursor (Torrent.ID t)].

(** A response that carries a page. *)
Definition succeeded (x : URLOptions.t * Response) : Prop :=
  exists page, snd x = inr page.

(** How a resync (or a part of it) went, read off its trace: [Clean] when
    no fetch failed, [Failed] when the last fetch did. *)
Inductive ResyncRun (tr : list Action) (cur0 : Z) (out : Outcome Z) : Prop :=
| Clean :
    Forall succeeded (responses tr) ->
    sent tr = map okEvent (items tr) ->
    (forall v, out = Ret v ->
               v = last (ids (items tr)) cur0 /\
               calls tr = map fst (responses tr)) ->
    ResyncRun tr cur0 out
| Failed o err pre :
    responses tr = pre ++ [(o, inl err)] ->
    Forall succeeded pre ->
    sent tr = map okEvent (items tr) ++ [errEvent err] ->
    out = Ret (last (ids (items tr)) cur0) ->
    calls tr = map fst (responses tr) ->
    ResyncRun tr cur0 out.

Definition resyncCall (imdbID : string) (i : nat) : URLOptions.t :=
  URLOptions.mk (Z.of_nat i) MaxEZTVAPILimit imdbID.

Definition streamKey (o : StreamOptions.t) : string :=
  TrimPrefix (StreamOptions.ImdbID o) "tt".

Definition streamInterval (o : StreamOptions.t) : Z :=
  if StreamOptions.RecheckInterval o =? 0
  then StreamRecheckInterval
  else StreamOptions.RecheckInterval o.

(** The whole stream: the goroutine is started, then either the key is
    missing, or a resync phase [tr1] is followed by a poll phase [tr2];
    the channel is closed when the body returns, which the poll loop does
    only after taking [ctx.Done()]. *)
Inductive StreamShape (c : Client.t) (o : StreamOptions.t)
          (tr : list Action) (out : Outcome unit) : Prop :=
| ShapeMissingKey k :
    streamKey o = "" ->
    tr = ActGo :: repeat ActCancelled k
           ++ [ActSend (errEvent ErrMissingImdbID); ActClose] ->
    out = Ret tt ->
    StreamShape c o tr out
| ShapeStream tr1 cur1 fuel e1 closing :
    streamKey o <> "" ->
    tr = ActGo :: tr1
           ++ trace_of (pollLoop fuel c (streamKey o) (streamInterval o) cur1 e1)
           ++ closing ->
    items tr1 = resyncItems tr1 ->
    timers tr1 = [] ->
    ~ In ActCtxDone tr1 -> ~ In ActClose tr1 ->
    (StreamOptions.LastTorrentID o <> 0 -> tr1 = []) ->
    cur1 = last (ids (items tr1)) (StreamOptions.LastTorrentID o) ->
    (cursors tr1 = ids (items tr1) \/ cursors tr1 = ids (items tr1) ++ [cur1]) ->
    ((closing = [] /\ out = Blocked /\
      ~ In ActCtxDone
          (trace_of (pollLoop fuel c (streamKey o) (streamInterval o) cur1 e1)))
     \/ (closing = [ActClose] /\ out = Ret tt /\
         exists pre,
           trace_of (pollLoop fuel c (streamKey o) (streamInterval o) cur1 e1)
           = pre ++ [ActCtxDone] /\ ~ In ActCtxDone pre)) ->
    StreamShape c o tr out.

(** [chain R a l]: [a :: l] is sorted by [R] on neighbours. *)
Fixpoint chain (R : Z -> Z -> Prop) (a : Z) (l : list Z) : Prop :=
  match l with
  | [] => True
  | x :: l' => R a x /\ chain R x l'
  end.

(** A torrent known by its ID only, and a page of such torrents, newest
    first. *)
Definition torrentWithID (n : Z) : Torrent.t :=
  Torrent.mk n "" "" "" "" "" "" "" "" "" "" "" 0 0 0 "".

Definition pageOf (count : Z) (l : list Z) : Page.t :=
  Page.mk "1" count 100 1 (map torrentWithID l).

Definition resyncOptions : StreamOptions.t := StreamOptions.mk "tt1" 0 0.

(** Two pages whose windows overlap by position, as after a change of the
    upstream list between the fetches: page 2 holds 1008 and 1004, page 1
    holds 1009 and 1006. *)
Definition shiftedPages : Env :=
  mkEnv [EvResponse (inr (pageOf 101 [1009]));
         EvResponse (inr (pageOf 101 [1008; 1004]));
         EvResponse (inr (pageOf 101 [1009; 1006]))] false.

(** A stream whose resync pages are in order, followed by a poll tick
    that finds a newer item. *)
Definition orderedPages : Env :=
  mkEnv [EvResponse (inr (pageOf 150 [1004]));
         EvResponse (inr (pageOf 150 [1002; 1001]));
         EvResponse (inr (pageOf 150 [1004; 1003]));
         EvTimer;
         EvResponse (inr (pageOf 151 [1005]))] false.

(** [aboveCursor start l]: every ID of [l] is above the cursor in force
    when its item was picked, which is [start] for the first item and the
    ID of the item emitted before for the others (the code sets the cursor
    to the ID of each item it emits). *)
Definition aboveCursor (start : Z) (l : list Z) : Prop := chain Z.lt start l.

(** Page 2 holds 1005; by the time page 1 is fetched the list has shrunk
    and 1005 is on page 1 as well. *)
Definition overlappingPages : Env :=
  mkEnv [EvResponse (inr (pageOf 101 [1007]));
         EvResponse (inr (pageOf 101 [1005]));
         EvResponse (inr (pageOf 2 [1007; 1005]))] false.

(** The trace of a poll tick whose page brings nothing new. *)
Definition quietTick (c : Client.t) (imdbID : string) (d : Z) (page : Page.t)
  : list Action :=
  [ActAfter d; ActTimer;
   ActRequest (Client.client c) (pollCall imdbID)
     (buildRequest c (pollCall imdbID));
   ActResponse (pollCall imdbID) (inr page)].

(** A stream opened at cursor 50: the first tick finds 50 again, the
    second finds 51. *)
Definition resumedOptions : StreamOptions.t := StreamOptions.mk "tt1" 50 0.

Definition resumedTicks : Env :=
  mkEnv [EvTimer; EvResponse (inr (pageOf 7 [50]));
         EvTimer; EvResponse (inr (pageOf 8 [51]))] false.

(** Page 2 holds 30 and 10, page 1 holds 40 and 20. *)
Definition unorderedPages : Env :=
  mkEnv [EvResponse (inr (pageOf 101 [40]));
         EvResponse (inr (pageOf 101 [30; 10]));
         EvResponse (inr (pageOf 101 [40; 20]))] false.

(** The stream of a missing key: one event, the error, then the channel
    is closed, and the page fetcher is never called. *)
Definition onlyMissingKeyError (tr : list Action) : Prop :=
  sent tr = [errEvent ErrMissingImdbID] /\
  (exists pre, tr = pre ++ [ActClose]) /\
  calls tr = [].



Definition errorOf (ev : StreamTorrent.t) : list error :=
  match StreamTorrent.Err ev with
  | Some err => [err]
  | None => []
  end.

(** The discovery fetch and the fetch of page 2 succeed, the fetch of
    page 1 fails. *)
Definition secondPageFails : Env :=
  mkEnv [EvResponse (inr (pageOf 150 [1004]));
         EvResponse (inr (pageOf 150 [1002; 1001]));
         EvResponse (inl (ErrUpstream "connection reset"))] false.

(** An upstream list of 250 torrents with the IDs 250 down to 1, and the
    four answers of the page fetcher during its resync. *)
Definition upstream250 : list Torrent.t :=
  map (fun n => torrentWithID (Z.of_nat n)) (rev (seq 1 250)).

Definition served (p : nat) : Page.t :=
  Page.mk "1" 250 100 (Z.of_nat p) (paginate upstream250 p 100).

Definition resyncOf250 : Env :=
  mkEnv [EvResponse (inr (Page.mk "1" 250 1 1 (paginate upstream250 1 1)));
         EvResponse (inr (served 3));
         EvResponse (inr (served 2));
         EvResponse (inr (served 1))] false.



(** ** Vocabulary of the further properties *)

(** The two options of options.go, as data. *)
Inductive OptionSpec : Type :=
| OptHTTPClient (client : http_Client)
| OptBaseURL (url : string).

Definition optionOf (s : OptionSpec) : Option :=
  match s with
  | OptHTTPClient client => WithHTTPClient client
  | OptBaseURL url => WithBaseURL url
  end.

Definition httpClientsOf (l : list OptionSpec) : list http_Client :=
  flat_map (fun s => match s with OptHTTPClient h => [h] | _ => [] end) l.

Definition baseURLsOf (l : list OptionSpec) : list string :=
  flat_map (fun s => match s with OptBaseURL u => [u] | _ => [] end) l.

(** The keys of a query, in the order they were added. *)
Definition queryKeys (q : list (string * string)) : list string := map fst q.

(** A float that is not a positive number. *)
Definition notPositive (x : spec_float) : bool :=
  match x with
  | S754_finite s _ _ => s
  | _ => true
  end.

(** [pageCountExactFrom fuel n acc]: [acc], and [pageCount] is the exact
    ceiling of the hundredth for the [fuel] counts from [n] on. *)
Fixpoint pageCountExactFrom (fuel : nat) (n : Z) (acc : bool) : bool :=
  match fuel with
  | O => acc
  | S fuel' =>
      pageCountExactFrom fuel' (n + 1)
                         (acc && (pageCount n =? (n + 99) / 100))
  end.

(** The fetches of a trace: which HTTP client was handed which request,
    for which options. *)
Definition fetches (tr : list Action)
  : list (http_Client * URLOptions.t * Request.t) :=
  flat_map (fun a => match a with
                     | ActRequest via o req => [(via, o, req)]
                     | _ => []
                     end) tr.

Definition fetchOf (c : Client.t) (o : URLOptions.t)
  : http_Client * URLOptions.t * Request.t :=
  (Client.client c, o, buildRequest c o).

(** The calls for the pages [n], [n - 1], ..., 1. *)
Definition pagesDown (imdbID : string) (n : nat) : list URLOptions.t :=
  map (resyncCall imdbID) (rev (seq 1 n)).

(** The errors of the fetches that failed, in the order of the fetches. *)
Definition failures (rs : list (URLOptions.t * Response)) : list error :=
  flat_map (fun x => match snd x with inl err => [err] | inr _ => [] end) rs.

(** The first torrent of every page that was fetched. *)
Definition newestOf (rs : list (URLOptions.t * Response)) : list Torrent.t :=
  flat_map (fun x => match snd x with
                     | inr page => firstn 1 (Page.Torrents page)
                     | inl _ => []
                     end) rs.

(** How often the select of the poll loop took the timer. *)
Definition ticks (tr : list Action) : nat :=
  List.length (flat_map (fun a => match a with ActTimer => [tt] | _ => [] end) tr).

(** An event carries a torrent and no error, or an error and no torrent. *)
Definition wellFormed (ev : StreamTorrent.t) : Prop :=
  (exists t, ev = okEvent t) \/ (exists err, ev = errEvent err).

(** A fetch as a stream for the key [imdbID] makes it: through the
    client's HTTP client, with the request of [GetTorrents], for page 1
    with limit 1 or for a page from 1 on with limit [MaxEZTVAPILimit]. *)
Definition streamFetch (c : Client.t) (imdbID : string)
           (x : http_Client * URLOptions.t * Request.t) : Prop :=
  let '(via, o, req) := x in
  via = Client.client c /\
  req = buildRequest c o /\
  Request.URL req = "https://eztv.re/api/get-torrents" /\
  URLOptions.ImdbID o = imdbID /\
  ((URLOptions.Page o = 1 /\ URLOptions.Limit o = 1) \/
   (1 <= URLOptions.Page o /\ URLOptions.Limit o = MaxEZTVAPILimit)).

(** An environment in which the context is not cancelled and will not
    be. *)
Definition neverCancelled (e : Env) : Prop :=
  ctx_done e = false /\ ~ In EvCancel (script e).

(** A computation that leaves such an environment as one, and a
    computation that does not return in one. *)
Definition steady {A} (m : M A) : Prop :=
  forall e, neverCancelled e -> neverCancelled (env_of (m e)).

Definition pending {A} (m : M A) : Prop :=
  forall e, neverCancelled e -> forall a, outcome_of (m e) <> Ret a.

(** The torrents of the pages that were fetched. *)
Definition fetchedTorrents (rs : list (URLOptions.t * Response))
  : list Torrent.t :=
  flat_map (fun x => match snd x with
                     | inr page => Page.Torrents page
                     | inl _ => []
                     end) rs.

(** An upstream list of 150 torrents with the IDs 150 down to 1, and the
    page fetcher that serves it in pages of 100. *)
Definition history150 : list Torrent.t :=
  map (fun n => torrentWithID (Z.of_nat n)) (rev (seq 1 150)).

Definition served150 (p : nat) : Page.t :=
  Page.mk "1" 150 100 (Z.of_nat p) (paginate history150 p 100).

Definition resyncOf150 : Env :=
  mkEnv [EvResponse (inr (Page.mk "1" 150 1 1 (paginate history150 1 1)));
         EvResponse (inr (served150 2));
         EvResponse (inr (served150 1))] false.

(** * Properties *)

(** ** The monad and the blocking operations *)

Lemma bind_Ret {A B} (m : M A) (f : A -> M B) e tr1 a e1 :
  m e = (tr1, Ret a, e1) ->
  bind m f e = (tr1 ++ trace_of (f a e1), outcome_of (f a e1), env_of (f a e1)).
Proof.
  intros H. unfold bind. rewrite H.
  destruct (f a e1) as [[tr2 r] e2]. reflexivity.
Qed.

Lemma bind_Blocked {A B} (m : M A) (f : A -> M B) e tr1 e1 :
  m e = (tr1, Blocked, e1) -> bind m f e = (tr1, Blocked, e1).
Proof. intros H. unfold bind. rewrite H. reflexivity. Qed.

Lemma bind_OutOfFuel {A B} (m : M A) (f : A -> M B) e tr1 e1 :
  m e = (tr1, OutOfFuel, e1) -> bind m f e = (tr1, OutOfFuel, e1).
Proof. intros H. unfold bind. rewrite H. reflexivity. Qed.

Lemma run_eta {A} (x : list Action * Outcome A * Env) :
  x = (trace_of x, outcome_of x, env_of x).
Proof. destruct x as [[tr r] e]. reflexivity. Qed.

Lemma trace_of_mk {A} tr (r : Outcome A) e : trace_of (tr, r, e) = tr.
Proof. reflexivity. Qed.
Lemma outcome_of_mk {A} tr (r : Outcome A) e : outcome_of (tr, r, e) = r.
Proof. reflexivity. Qed.
Lemma env_of_mk {A} tr (r : Outcome A) e : env_of (tr, r, e) = e.
Proof. reflexivity. Qed.

(** Normalise the result of running a sequence of binds. *)
Ltac run_norm :=
  repeat rewrite ?trace_of_mk, ?outcome_of_mk, ?env_of_mk.

(** Bring [a :: l1 ++ ... ++ x] into the form [prefix ++ x]. *)
Ltac assoc_left := repeat rewrite app_comm_cons; repeat rewrite app_assoc.

Lemma absorb_events_spec s done :
  exists k e',
    absorb_events s done = (repeat ActCancelled k, e') /\
    absorbed k (mkEnv s done) e'.
Proof.
  revert done. induction s as [|ev s IH]; intros done.
  - exists O, (mkEnv [] done). unfold absorbed. simpl.
    rewrite orb_false_r. repeat split; congruence.
  - destruct ev.
    + destruct (IH true) as (k & e' & Hrun & Hs & Hd & Hh & _).
      exists (S k), e'. simpl. rewrite Hrun. unfold absorbed. simpl in *.
      split; [reflexivity|]. rewrite Hs, Hd.
      repeat split; try assumption; try discriminate.
      now rewrite orb_true_r.
    + exists O, (mkEnv (EvTimer :: s) done). unfold absorbed. simpl.
      rewrite orb_false_r. repeat split; congruence.
    + exists O, (mkEnv (EvResponse r :: s) done). unfold absorbed. simpl.
      rewrite orb_false_r. repeat split; congruence.
Qed.

Lemma run_absorb e :
  exists k e', absorb e = (repeat ActCancelled k, Ret tt, e') /\ absorbed k e e'.
Proof.
  unfold absorb.
  destruct (absorb_events_spec (script e) (ctx_done e)) as (k & e' & Hrun & Hab).
  exists k, e'. rewrite Hrun. split; [reflexivity|].
  destruct e; exact Hab.
Qed.

Lemma run_send ev e :
  exists k e',
    send ev e = (repeat ActCancelled k ++ [ActSend ev], Ret tt, e') /\
    absorbed k e e'.
Proof.
  destruct (run_absorb e) as (k & e' & Hrun & Hab).
  exists k, e'. split; [|exact Hab].
  unfold send. rewrite (bind_Ret _ _ _ _ _ _ Hrun). reflexivity.
Qed.

Lemma run_GetTorrents c o e :
  exists k e1,
    absorbed k e e1 /\
    ((exists r s,
         script e1 = EvResponse r :: s /\
         GetTorrents c o e =
           (ActRequest (Client.client c) o
              (buildRequest c o) :: repeat ActCancelled k
              ++ [ActResponse o r], Ret r, mkEnv s (ctx_done e1)))
     \/ ((forall r s, script e1 <> EvResponse r :: s) /\
         GetTorrents c o e =
           (ActRequest (Client.client c) o
              (buildRequest c o) :: repeat ActCancelled k,
            Blocked, e1))).
Proof.
  destruct (run_absorb e) as (k & e1 & Hrun & Hab).
  exists k, e1. split; [exact Hab|].
  unfold GetTorrents.
  rewrite (bind_Ret _ _ e [ActRequest (Client.client c) o
                             (buildRequest c o)] tt e eq_refl).
  rewrite (bind_Ret _ _ _ _ _ _ Hrun).
  unfold awaitResponse.
  destruct (script e1) as [|[| |r] s] eqn:Hs; simpl.
  - right. rewrite app_nil_r. split; [congruence|reflexivity].
  - right. rewrite app_nil_r. split; [congruence|reflexivity].
  - right. rewrite app_nil_r. split; [congruence|reflexivity].
  - left. exists r, s. split; reflexivity.
Qed.

Lemma run_select d e :
  exists k e1,
    absorbed k e e1 /\
    ((ctx_done e1 = true /\
      selectDoneOrAfter d e =
        (ActAfter d :: repeat ActCancelled k ++ [ActCtxDone],
         Ret CaseCtxDone, e1))
     \/ (ctx_done e1 = false /\
         exists s, script e1 = EvTimer :: s /\
         selectDoneOrAfter d e =
           (ActAfter d :: repeat ActCancelled k ++ [ActTimer],
            Ret CaseTimer, mkEnv s false))
     \/ (ctx_done e1 = false /\
         (forall s, script e1 <> EvTimer :: s) /\
         selectDoneOrAfter d e =
           (ActAfter d :: repeat ActCancelled k, Blocked, e1))).
Proof.
  destruct (run_absorb e) as (k & e1 & Hrun & Hab).
  exists k, e1. split; [exact Hab|].
  unfold selectDoneOrAfter.
  rewrite (bind_Ret _ _ e [ActAfter d] tt e eq_refl).
  rewrite (bind_Ret _ _ _ _ _ _ Hrun).
  unfold awaitTimer.
  destruct (ctx_done e1) eqn:Hd; simpl.
  - left. split; reflexivity.
  - right. destruct (script e1) as [|[| |r] s] eqn:Hs; simpl.
    + right. rewrite app_nil_r. repeat split; congruence.
    + right. rewrite app_nil_r. repeat split; congruence.
    + left. split; [reflexivity|]. exists s. split; reflexivity.
    + right. rewrite app_nil_r. repeat split; congruence.
Qed.

Lemma absorbed_length k e e' :
  absorbed k e e' -> (List.length (script e') <= List.length (script e))%nat.
Proof.
  intros (Hs & _). rewrite Hs, length_app. lia.
Qed.

(** ** Reading traces: the cancellations are invisible to the projections *)

Lemma visible_app tr1 tr2 : visible (tr1 ++ tr2) = visible tr1 ++ visible tr2.
Proof. apply filter_app. Qed.

Lemma visible_cancelled k : visible (repeat ActCancelled k) = [].
Proof. induction k; simpl; auto. Qed.

Lemma flat_map_visible {B} (f : Action -> list B) tr :
  f ActCancelled = [] -> flat_map f (visible tr) = flat_map f tr.
Proof.
  intros Hf. induction tr as [|a tr IH]; simpl; [reflexivity|].
  destruct a; simpl; rewrite ?IH, ?Hf; reflexivity.
Qed.

Lemma sent_visible tr : sent tr = sent (visible tr).
Proof. symmetry. apply flat_map_visible. reflexivity. Qed.
Lemma items_visible tr : items tr = items (visible tr).
Proof. symmetry. apply flat_map_visible. reflexivity. Qed.
Lemma errors_visible tr : errors tr = errors (visible tr).
Proof. symmetry. apply flat_map_visible. reflexivity. Qed.
Lemma calls_visible tr : calls tr = calls (visible tr).
Proof. symmetry. apply flat_map_visible. reflexivity. Qed.
Lemma requests_visible tr : requests tr = requests (visible tr).
Proof. symmetry. apply flat_map_visible. reflexivity. Qed.
Lemma responses_visible tr : responses tr = responses (visible tr).
Proof. symmetry. apply flat_map_visible. reflexivity. Qed.
Lemma cursors_visible tr : cursors tr = cursors (visible tr).
Proof. symmetry. apply flat_map_visible. reflexivity. Qed.
Lemma timers_visible tr : timers tr = timers (visible tr).
Proof. symmetry. apply flat_map_visible. reflexivity. Qed.
Lemma resyncItems_visible tr : resyncItems tr = resyncItems (visible tr).
Proof. unfold resyncItems. now rewrite responses_visible. Qed.

Lemma sent_app a b : sent (a ++ b) = sent a ++ sent b.
Proof. apply flat_map_app. Qed.
Lemma items_app a b : items (a ++ b) = items a ++ items b.
Proof. apply flat_map_app. Qed.
Lemma errors_app a b : errors (a ++ b) = errors a ++ errors b.
Proof. apply flat_map_app. Qed.
Lemma calls_app a b : calls (a ++ b) = calls a ++ calls b.
Proof. apply flat_map_app. Qed.
Lemma requests_app a b : requests (a ++ b) = requests a ++ requests b.
Proof. apply flat_map_app. Qed.
Lemma responses_app a b : responses (a ++ b) = responses a ++ responses b.
Proof. apply flat_map_app. Qed.
Lemma cursors_app a b : cursors (a ++ b) = cursors a ++ cursors b.
Proof. apply flat_map_app. Qed.
Lemma timers_app a b : timers (a ++ b) = timers a ++ timers b.
Proof. apply flat_map_app. Qed.
Lemma resyncItems_app a b : resyncItems (a ++ b) = resyncItems a ++ resyncItems b.
Proof. unfold resyncItems. rewrite responses_app. apply flat_map_app. Qed.
Lemma ids_app a b : ids (a ++ b) = ids a ++ ids b.
Proof. apply map_app. Qed.

Lemma In_visible a tr : a <> ActCancelled -> In a tr <-> In a (visible tr).
Proof.
  intros Ha. unfold visible. rewrite filter_In. split.
  - intros H. split; [exact H|]. destruct a; try reflexivity. congruence.
  - tauto.
Qed.

(** After [visible], a trace piece of a blocking operation is a concrete
    list; [vis] normalises it. *)
Ltac vis :=
  repeat (rewrite ?visible_app, ?visible_cancelled, ?app_nil_r; simpl).

(** ** One iteration of the poll loop *)

Lemma pollLoop_step fuel c imdbID d cur e :
  let x := pollLoop (S fuel) c imdbID d cur e in
  (exists k e1,
      absorbed k e e1 /\ ctx_done e1 = true /\
      x = (ActAfter d :: repeat ActCancelled k ++ [ActCtxDone], Ret tt, e1))
  \/ (exists tr0 e1,
         x = (tr0, Blocked, e1) /\
         (visible tr0 = [ActAfter d] \/
          visible tr0 =
            [ActAfter d; ActTimer;
             ActRequest (Client.client c) (pollCall imdbID)
               (buildRequest c (pollCall imdbID))]))
  \/ (exists tr0 cur' e1,
         Tick c imdbID d cur tr0 cur' /\
         (List.length (script e1) < List.length (script e))%nat /\
         x = (tr0 ++ trace_of (pollLoop fuel c imdbID d cur' e1),
              outcome_of (pollLoop fuel c imdbID d cur' e1),
              env_of (pollLoop fuel c imdbID d cur' e1))).
Proof.
  cbv zeta. cbn [pollLoop]. fold (pollCall imdbID).
  destruct (run_select d e) as (k & e1 & Hab & [(Hd & Hsel)|[(Hd & s & Hs & Hsel)|(Hd & Hn & Hsel)]]).
  - left. exists k, e1. split; [exact Hab|split; [exact Hd|]].
    rewrite (bind_Ret _ _ _ _ _ _ Hsel). simpl. now rewrite app_nil_r.
  - right. rewrite (bind_Ret _ _ _ _ _ _ Hsel).
    assert (Hlen : (List.length s < List.length (script e))%nat).
    { pose proof (absorbed_length _ _ _ Hab) as Hl. rewrite Hs in Hl. simpl in Hl. lia. }
    destruct (run_GetTorrents c (pollCall imdbID) (mkEnv s false))
      as (k2 & e2 & Hab2 & [(r & s2 & Hs2 & Hget)|(Hn2 & Hget)]).
    + right.
      pose proof (absorbed_length _ _ _ Hab2) as Hl2. rewrite Hs2 in Hl2. simpl in Hl2.
      rewrite (bind_Ret _ _ _ _ _ _ Hget).
      destruct r as [err|page].
      * destruct (run_send (errEvent err) (mkEnv s2 (ctx_done e2)))
          as (k3 & e3 & Hsend & Hab3).
        pose proof (absorbed_length _ _ _ Hab3) as Hl3. simpl in Hl3.
        rewrite (bind_Ret _ _ _ _ _ _ Hsend). simpl.
        eexists _, cur, e3. split; [|split; [|run_norm; assoc_left; reflexivity]].
        -- eapply TickFailed. vis. reflexivity.
        -- lia.
      * destruct (Page.Torrents page) as [|t0 ts] eqn:Hts.
        -- simpl. eexists _, cur, _. split; [|split; [|run_norm; assoc_left; reflexivity]].
           ++ eapply TickNothingNew; [vis; reflexivity|now left].
           ++ simpl. lia.
        -- destruct (Torrent.ID t0 <=? cur) eqn:Hle.
           ++ simpl. eexists _, cur, _. split; [|split; [|run_norm; assoc_left; reflexivity]].
              ** eapply TickNothingNew; [vis; reflexivity|].
                 right. exists t0, ts. split; [assumption|]. now apply Z.leb_le.
              ** simpl. lia.
           ++ rewrite (bind_Ret _ _ (mkEnv s2 (ctx_done e2))
                         [ActSetCursor (Torrent.ID t0)] tt _ eq_refl).
              destruct (run_send (okEvent t0) (mkEnv s2 (ctx_done e2)))
                as (k3 & e3 & Hsend & Hab3).
              pose proof (absorbed_length _ _ _ Hab3) as Hl3. simpl in Hl3.
              rewrite (bind_Ret _ _ _ _ _ _ Hsend). simpl.
              eexists _, (Torrent.ID t0), e3.
              split; [|split; [|run_norm; assoc_left; reflexivity]].
              ** eapply TickNew; [vis; reflexivity|eassumption|].
                 apply Z.leb_gt in Hle. lia.
              ** lia.
    + left. rewrite (bind_Blocked _ _ _ _ _ Hget). simpl.
      eexists _, _. split; [reflexivity|]. right. vis. reflexivity.
  - right. left. rewrite (bind_Blocked _ _ _ _ _ Hsel).
    eexists _, _. split; [reflexivity|]. left. vis. reflexivity.
Qed.

Lemma Tick_facts c imdbID d cur tr0 cur' :
  Tick c imdbID d cur tr0 cur' ->
  timers tr0 = [d] /\
  resyncItems tr0 = [] /\
  cursors tr0 = ids (items tr0) /\
  ((items tr0 = [] /\ cur' = cur) \/
   (exists t0, items tr0 = [t0] /\ cur' = Torrent.ID t0 /\ cur < Torrent.ID t0)) /\
  ~ In ActCtxDone tr0 /\ ~ In ActClose tr0 /\
  calls tr0 = [pollCall imdbID].
Proof.
  intros HT.
  rewrite timers_visible, resyncItems_visible, cursors_visible, items_visible,
    calls_visible.
  rewrite (In_visible ActCtxDone) by discriminate.
  rewrite (In_visible ActClose) by discriminate.
  destruct HT as [err tr0 Hv|page tr0 Hv Hp|page t0 ts tr0 Hv Hp Hlt];
    rewrite Hv; cbn.
  - repeat split; auto; intuition discriminate.
  - repeat split; auto; intuition discriminate.
  - repeat split; auto; try (intuition discriminate).
    right. exists t0. auto.
Qed.

(** ** The poll loop *)

Section PollLoop.
Variable c : Client.t.
Variable imdbID : string.
Variable d : Z.

(** Items leave the poll loop in strictly increasing ID order, all above
    the cursor the loop was entered with, and every cursor update is the ID
    of the item sent with it. *)
Lemma pollLoop_items fuel : forall cur e,
  let tr := trace_of (pollLoop fuel c imdbID d cur e) in
  Forall (Z.lt cur) (ids (items tr)) /\
  StronglySorted Z.lt (ids (items tr)) /\
  cursors tr = ids (items tr).
Proof.
  induction fuel as [|fuel IH]; intros cur e tr.
  - subst tr. cbn. repeat split; constructor.
  - subst tr.
    destruct (pollLoop_step fuel c imdbID d cur e)
      as [(k & e1 & _ & _ & Hx)|[(tr0 & e1 & Hx & Hv)|(tr0 & cur' & e1 & HT & _ & Hx)]];
      rewrite Hx; run_norm.
    + rewrite items_visible, cursors_visible. vis.
      repeat split; constructor.
    + rewrite items_visible, cursors_visible.
      destruct Hv as [Hv|Hv]; rewrite Hv; cbn; repeat split; constructor.
    + destruct (Tick_facts _ _ _ _ _ _ HT) as (_ & _ & Hc & Hit & _).
      destruct (IH cur' e1) as (Hall & Hss & Hcur).
      rewrite items_app, cursors_app, ids_app, Hc, Hcur.
      split; [|split; [|reflexivity]].
      * destruct Hit as [(Hi & ->)|(t0 & Hi & -> & Hlt)]; rewrite Hi; cbn.
        -- exact Hall.
        -- constructor; [exact Hlt|].
           eapply Forall_impl; [|exact Hall]. cbv beta. intros; lia.
      * destruct Hit as [(Hi & ->)|(t0 & Hi & -> & Hlt)]; rewrite Hi; cbn.
        -- exact Hss.
        -- constructor; assumption.
Qed.

Lemma pollLoop_timers fuel : forall cur e,
  Forall (eq d) (timers (trace_of (pollLoop fuel c imdbID d cur e))).
Proof.
  induction fuel as [|fuel IH]; intros cur e.
  - constructor.
  - destruct (pollLoop_step fuel c imdbID d cur e)
      as [(k & e1 & _ & _ & Hx)|[(tr0 & e1 & Hx & Hv)|(tr0 & cur' & e1 & HT & _ & Hx)]];
      rewrite Hx; run_norm.
    + rewrite timers_visible. vis. repeat constructor.
    + rewrite timers_visible.
      destruct Hv as [Hv|Hv]; rewrite Hv; cbn; repeat constructor.
    + destruct (Tick_facts _ _ _ _ _ _ HT) as (Ht & _).
      rewrite timers_app, Ht. constructor; [reflexivity|apply IH].
Qed.

Lemma pollLoop_resyncItems fuel : forall cur e,
  resyncItems (trace_of (pollLoop fuel c imdbID d cur e)) = [].
Proof.
  induction fuel as [|fuel IH]; intros cur e.
  - reflexivity.
  - destruct (pollLoop_step fuel c imdbID d cur e)
      as [(k & e1 & _ & _ & Hx)|[(tr0 & e1 & Hx & Hv)|(tr0 & cur' & e1 & HT & _ & Hx)]];
      rewrite Hx; run_norm.
    + rewrite resyncItems_visible. vis. reflexivity.
    + rewrite resyncItems_visible.
      destruct Hv as [Hv|Hv]; rewrite Hv; reflexivity.
    + destruct (Tick_facts _ _ _ _ _ _ HT) as (_ & Hr & _).
      rewrite resyncItems_app, Hr, IH. reflexivity.
Qed.

(** The loop returns only through the [ctx.Done()] case of its select,
    and that is the last thing it does. *)
Lemma pollLoop_return fuel : forall cur e,
  let x := pollLoop fuel c imdbID d cur e in
  ~ In ActClose (trace_of x) /\
  ((outcome_of x = Ret tt /\
    exists pre, trace_of x = pre ++ [ActCtxDone] /\ ~ In ActCtxDone pre)
   \/ (outcome_of x <> Ret tt /\ ~ In ActCtxDone (trace_of x))).
Proof.
  induction fuel as [|fuel IH]; intros cur e x; subst x.
  - cbn. split; [tauto|]. right. split; [discriminate|tauto].
  - destruct (pollLoop_step fuel c imdbID d cur e)
      as [(k & e1 & _ & _ & Hx)|[(tr0 & e1 & Hx & Hv)|(tr0 & cur' & e1 & HT & _ & Hx)]];
      rewrite Hx; run_norm.
    + split.
      * rewrite (In_visible ActClose) by discriminate. vis. intuition discriminate.
      * left. split; [reflexivity|].
        exists (ActAfter d :: repeat ActCancelled k). split; [reflexivity|].
        rewrite (In_visible ActCtxDone) by discriminate. vis. intuition discriminate.
    + rewrite (In_visible ActClose), (In_visible ActCtxDone) by discriminate.
      split; [|right; split; [discriminate|]];
        destruct Hv as [Hv|Hv]; rewrite Hv; cbn; intuition discriminate.
    + destruct (Tick_facts _ _ _ _ _ _ HT) as (_ & _ & _ & _ & Hnd & Hnc & _).
      destruct (IH cur' e1) as (Hc & Hcase).
      split.
      * rewrite in_app_iff. tauto.
      * destruct Hcase as [(Ho & pre & Htr & Hpre)|(Ho & Hn)].
        -- left. split; [exact Ho|]. exists (tr0 ++ pre).
           rewrite Htr, app_assoc. split; [reflexivity|].
           rewrite in_app_iff. tauto.
        -- right. split; [exact Ho|]. rewrite in_app_iff. tauto.
Qed.

(** One more unit of fuel than the script has events is enough. *)
Lemma pollLoop_fuel fuel : forall cur e,
  (List.length (script e) < fuel)%nat ->
  outcome_of (pollLoop fuel c imdbID d cur e) <> OutOfFuel.
Proof.
  induction fuel as [|fuel IH]; intros cur e Hlen; [lia|].
  destruct (pollLoop_step fuel c imdbID d cur e)
    as [(k & e1 & _ & _ & Hx)|[(tr0 & e1 & Hx & Hv)|(tr0 & cur' & e1 & HT & Hl & Hx)]];
    rewrite Hx; run_norm; try discriminate.
  apply IH. lia.
Qed.

End PollLoop.

(** ** The full resync *)

Lemma last_cons_default {A} (l : list A) : forall x d d',
  last (x :: l) d = last (x :: l) d'.
Proof.
  induction l as [|y l IH]; intros x d d'; [reflexivity|].
  change (last (y :: l) d = last (y :: l) d'). apply IH.
Qed.

Lemma last_app_default {A} (l1 l2 : list A) (d : A) :
  last (l1 ++ l2) d = last l2 (last l1 d).
Proof.
  induction l1 as [|a l1 IH]; [reflexivity|].
  destruct l1 as [|b l1].
  - destruct l2 as [|b l2]; [reflexivity|].
    change (last (b :: l2) d = last (b :: l2) a). apply last_cons_default.
  - change (last ((a :: b :: l1) ++ l2) d) with (last ((b :: l1) ++ l2) d).
    rewrite IH. reflexivity.
Qed.


Lemma run_emitTorrents ts : forall lastTorrentID e,
  exists tr e',
    emitTorrents ts lastTorrentID e = (tr, Ret (last (ids ts) lastTorrentID), e') /\
    visible tr = flat_map emitted ts /\
    (List.length (script e') <= List.length (script e))%nat /\
    ((forall s, script e <> EvCancel :: s) -> e' = e).
Proof.
  induction ts as [|t ts IH]; intros l0 e.
  - exists [], e. repeat split; auto.
  - cbn [emitTorrents].
    destruct (run_send (okEvent t) e) as (k & e1 & Hsend & Hab).
    destruct (IH (Torrent.ID t) e1) as (tr & e2 & Hrun & Hv & Hl & Hsame).
    rewrite (bind_Ret _ _ _ _ _ _ Hsend).
    rewrite (bind_Ret _ _ e1 [ActSetCursor (Torrent.ID t)] tt e1 eq_refl).
    rewrite Hrun. run_norm.
    eexists _, e2. split; [|split; [|split]].
    + f_equal. f_equal. f_equal. cbn [ids map].
      destruct ts as [|t' ts]; [reflexivity|].
      change (last (Torrent.ID t' :: ids ts) (Torrent.ID t)
              = last (Torrent.ID t' :: ids ts) l0).
      apply last_cons_default.
    + vis. rewrite Hv. reflexivity.
    + pose proof (absorbed_length _ _ _ Hab). lia.
    + intros Hh. destruct Hab as (Hs & Hd & Hh1 & H0).
      assert (e1 = e) as ->.
      { destruct k as [|k]; [now apply H0|].
        exfalso. eapply Hh. rewrite Hs. reflexivity. }
      now apply Hsame.
Qed.

Lemma items_emitted ts : items (flat_map emitted ts) = ts.
Proof.
  induction ts as [|t ts IH]; [reflexivity|].
  change (flat_map emitted (t :: ts)) with (emitted t ++ flat_map emitted ts).
  rewrite items_app, IH. reflexivity.
Qed.

Lemma sent_emitted ts : sent (flat_map emitted ts) = map okEvent ts.
Proof.
  induction ts as [|t ts IH]; [reflexivity|].
  change (flat_map emitted (t :: ts)) with (emitted t ++ flat_map emitted ts).
  rewrite sent_app, IH. reflexivity.
Qed.

Lemma cursors_emitted ts : cursors (flat_map emitted ts) = ids ts.
Proof.
  induction ts as [|t ts IH]; [reflexivity|].
  change (flat_map emitted (t :: ts)) with (emitted t ++ flat_map emitted ts).
  rewrite cursors_app, IH. reflexivity.
Qed.

Lemma errors_emitted ts : errors (flat_map emitted ts) = [].
Proof.
  induction ts as [|t ts IH]; [reflexivity|].
  change (flat_map emitted (t :: ts)) with (emitted t ++ flat_map emitted ts).
  rewrite errors_app, IH. reflexivity.
Qed.

Lemma calls_emitted ts : calls (flat_map emitted ts) = [].
Proof.
  induction ts as [|t ts IH]; [reflexivity|].
  change (flat_map emitted (t :: ts)) with (emitted t ++ flat_map emitted ts).
  rewrite calls_app, IH. reflexivity.
Qed.

Lemma responses_emitted ts : responses (flat_map emitted ts) = [].
Proof.
  induction ts as [|t ts IH]; [reflexivity|].
  change (flat_map emitted (t :: ts)) with (emitted t ++ flat_map emitted ts).
  rewrite responses_app, IH. reflexivity.
Qed.

Lemma timers_emitted ts : timers (flat_map emitted ts) = [].
Proof.
  induction ts as [|t ts IH]; [reflexivity|].
  change (flat_map emitted (t :: ts)) with (emitted t ++ flat_map emitted ts).
  rewrite timers_app, IH. reflexivity.
Qed.

Lemma In_emitted a ts :
  In a (flat_map emitted ts) ->
  exists t, a = ActSend (okEvent t) \/ a = ActSetCursor (Torrent.ID t).
Proof.
  rewrite in_flat_map. intros (t & _ & [H|[H|[]]]); exists t; auto.
Qed.

Section Resync.
Variable c : Client.t.
Variable imdbID : string.

Lemma resyncBackwards_inv i : forall cur0 e,
  let x := resyncBackwards c imdbID i cur0 e in
  let tr := trace_of x in
  items tr = resyncItems tr /\
  cursors tr = ids (items tr) /\
  timers tr = [] /\
  ~ In ActCtxDone tr /\ ~ In ActClose tr /\
  outcome_of x <> OutOfFuel /\
  ResyncRun tr cur0 (outcome_of x).
Proof.
  induction i as [|i IH]; intros cur0 e x tr; subst tr x.
  - cbn. repeat split; try tauto; try discriminate.
    apply Clean; cbn; auto. intros v [= <-]. auto.
  - cbn [resyncBackwards]. fold (resyncCall imdbID (S i)).
    destruct (run_GetTorrents c (resyncCall imdbID (S i)) e)
      as (k & e1 & Hab & [(r & s & Hs & Hget)|(Hn & Hget)]).
    + rewrite (bind_Ret _ _ _ _ _ _ Hget).
      destruct r as [err|page].
      * destruct (run_send (errEvent err) (mkEnv s (ctx_done e1)))
          as (k2 & e2 & Hsend & Hab2).
        rewrite (bind_Ret _ _ _ _ _ _ Hsend). cbn [ret]. run_norm.
        rewrite items_visible, resyncItems_visible, cursors_visible,
          timers_visible.
        rewrite (In_visible ActCtxDone), (In_visible ActClose) by discriminate.
        vis. repeat split; try (cbn; tauto); try (intuition discriminate).
        eapply Failed with (pre := []).
        -- rewrite responses_visible. vis. reflexivity.
        -- constructor.
        -- rewrite sent_visible, items_visible. vis. reflexivity.
        -- rewrite items_visible. vis. reflexivity.
        -- rewrite calls_visible, responses_visible. vis. reflexivity.
      * destruct (run_emitTorrents (rev (Page.Torrents page)) cur0
                    (mkEnv s (ctx_done e1)))
          as (tr2 & e2 & Hemit & Hv & _ & _).
        rewrite (bind_Ret _ _ _ _ _ _ Hemit). run_norm.
        set (cur1 := last (ids (rev (Page.Torrents page))) cur0).
        destruct (IH cur1 e2) as (Hri & Hcu & Hti & Hnd & Hnc & Hfu & Hrun).
        set (tr3 := trace_of (resyncBackwards c imdbID i cur1 e2)) in *.
        assert (Hitems : items tr2 = rev (Page.Torrents page))
          by (rewrite items_visible, Hv; apply items_emitted).
        assert (Hresp : responses tr2 = [])
          by (rewrite responses_visible, Hv; apply responses_emitted).
        assert (Hcalls : calls tr2 = [])
          by (rewrite calls_visible, Hv; apply calls_emitted).
        assert (Hsent : sent tr2 = map okEvent (rev (Page.Torrents page)))
          by (rewrite sent_visible, Hv; apply sent_emitted).
        split; [|split; [|split; [|split; [|split; [|split]]]]].
        -- rewrite !items_app, !resyncItems_app.
           rewrite (items_visible (ActRequest _ _ _ :: _)),
             (resyncItems_visible (ActRequest _ _ _ :: _)).
           vis. unfold resyncItems at 1 2. rewrite Hresp. cbn.
           rewrite app_nil_r, Hitems, Hri. reflexivity.
        -- rewrite !items_app, !cursors_app, !ids_app.
           rewrite (items_visible (ActRequest _ _ _ :: _)),
             (cursors_visible (ActRequest _ _ _ :: _)).
           vis. rewrite Hcu. f_equal.
           rewrite cursors_visible, items_visible, Hv.
           now rewrite cursors_emitted, items_emitted.
        -- rewrite !timers_app.
           rewrite (timers_visible (ActRequest _ _ _ :: _)), (timers_visible tr2).
           vis. rewrite Hv, timers_emitted, Hti. reflexivity.
        -- rewrite !in_app_iff. intros [H|[H|H]]; [| |tauto].
           ++ apply (In_visible ActCtxDone) in H; [|discriminate].
              revert H. vis. intuition discriminate.
           ++ apply (In_visible ActCtxDone) in H; [|discriminate].
              rewrite Hv in H. apply In_emitted in H.
              destruct H as (t & [H|H]); discriminate.
        -- rewrite !in_app_iff. intros [H|[H|H]]; [| |tauto].
           ++ apply (In_visible ActClose) in H; [|discriminate].
              revert H. vis. intuition discriminate.
           ++ apply (In_visible ActClose) in H; [|discriminate].
              rewrite Hv in H. apply In_emitted in H.
              destruct H as (t & [H|H]); discriminate.
        -- exact Hfu.
        -- assert (Hi0 : forall tr', items ((ActRequest (Client.client c) (resyncCall imdbID (S i))
                              (buildRequest c (resyncCall imdbID (S i)))
                            :: repeat ActCancelled k ++
                               [ActResponse (resyncCall imdbID (S i)) (inr page)])
                           ++ tr2 ++ tr') = rev (Page.Torrents page) ++ items tr').
           { intros tr'. rewrite !items_app.
             rewrite (items_visible (ActRequest _ _ _ :: _)).
             vis. now rewrite Hitems. }
           assert (Hr0 : forall tr', responses ((ActRequest (Client.client c) (resyncCall imdbID (S i))
                              (buildRequest c (resyncCall imdbID (S i)))
                            :: repeat ActCancelled k ++
                               [ActResponse (resyncCall imdbID (S i)) (inr page)])
                           ++ tr2 ++ tr')
                         = (resyncCall imdbID (S i), inr page) :: responses tr').
           { intros tr'. rewrite !responses_app.
             rewrite (responses_visible (ActRequest _ _ _ :: _)).
             vis. now rewrite Hresp. }
           assert (Hc0 : forall tr', calls ((ActRequest (Client.client c) (resyncCall imdbID (S i))
                              (buildRequest c (resyncCall imdbID (S i)))
                            :: repeat ActCancelled k ++
                               [ActResponse (resyncCall imdbID (S i)) (inr page)])
                           ++ tr2 ++ tr')
                         = resyncCall imdbID (S i) :: calls tr').
           { intros tr'. rewrite !calls_app.
             rewrite (calls_visible (ActRequest _ _ _ :: _)).
             vis. now rewrite Hcalls. }
           assert (Hs0 : forall tr', sent ((ActRequest (Client.client c) (resyncCall imdbID (S i))
                              (buildRequest c (resyncCall imdbID (S i)))
                            :: repeat ActCancelled k ++
                               [ActResponse (resyncCall imdbID (S i)) (inr page)])
                           ++ tr2 ++ tr')
                         = map okEvent (rev (Page.Torrents page)) ++ sent tr').
           { intros tr'. rewrite !sent_app.
             rewrite (sent_visible (ActRequest _ _ _ :: _)).
             vis. now rewrite Hsent. }
           destruct Hrun as [Hall Hse Hret|o err pre Hre Hall Hse Hout Hca].
           ++ apply Clean.
              ** rewrite Hr0. constructor; [now exists page|exact Hall].
              ** rewrite Hs0, Hi0, map_app, Hse. reflexivity.
              ** intros v Hv'. destruct (Hret v Hv') as (-> & Hca).
                 rewrite Hi0, Hr0, Hc0, ids_app, last_app_default, Hca.
                 split; reflexivity.
           ++ eapply Failed with (pre := (resyncCall imdbID (S i), inr page) :: pre).
              ** rewrite Hr0, Hre. reflexivity.
              ** constructor; [now exists page|exact Hall].
              ** rewrite Hs0, Hi0, map_app, Hse, app_assoc. reflexivity.
              ** rewrite Hout, Hi0, ids_app, last_app_default. reflexivity.
              ** rewrite Hc0, Hr0, Hca. reflexivity.
    + rewrite (bind_Blocked _ _ _ _ _ Hget). run_norm.
      rewrite items_visible, resyncItems_visible, cursors_visible,
        timers_visible.
      rewrite (In_visible ActCtxDone), (In_visible ActClose) by discriminate.
      vis. repeat split; try (cbn; tauto); try (intuition discriminate).
      apply Clean.
      * rewrite responses_visible. vis. constructor.
      * rewrite sent_visible, items_visible. vis. reflexivity.
      * intros v [=].
Qed.

End Resync.

Lemma ResyncRun_after_fetch tr0 tr cur0 out o page :
  sent tr0 = [] -> items tr0 = [] ->
  responses tr0 = [(o, inr page)] -> calls tr0 = [o] ->
  ResyncRun tr cur0 out -> ResyncRun (tr0 ++ tr) cur0 out.
Proof.
  intros Hs Hi Hr Hc [Hall Hse Hret|o' err pre Hre Hall Hse Hout Hca].
  - apply Clean.
    + rewrite responses_app, Hr. constructor; [now exists page|exact Hall].
    + rewrite sent_app, items_app, Hs, Hi. exact Hse.
    + intros v Hv. destruct (Hret v Hv) as (-> & Hca).
      rewrite items_app, calls_app, responses_app, Hi, Hr, Hc, Hca.
      split; reflexivity.
  - eapply Failed with (pre := (o, inr page) :: pre).
    + rewrite responses_app, Hr, Hre. reflexivity.
    + constructor; [now exists page|exact Hall].
    + rewrite sent_app, items_app, Hs, Hi. exact Hse.
    + rewrite items_app, Hi. exact Hout.
    + rewrite calls_app, responses_app, Hr, Hc, Hca. reflexivity.
Qed.

Lemma fullStreamResync_inv c imdbID e :
  let x := fullStreamResync c imdbID e in
  let tr := trace_of x in
  items tr = resyncItems tr /\
  cursors tr = ids (items tr) /\
  timers tr = [] /\
  ~ In ActCtxDone tr /\ ~ In ActClose tr /\
  outcome_of x <> OutOfFuel /\
  ResyncRun tr 0 (outcome_of x).
Proof.
  cbv zeta. unfold fullStreamResync. fold (pollCall imdbID).
  destruct (run_GetTorrents c (pollCall imdbID) e)
    as (k & e1 & Hab & [(r & s & Hs & Hget)|(Hn & Hget)]).
  - rewrite (bind_Ret _ _ _ _ _ _ Hget).
    destruct r as [err|page].
    + destruct (run_send (errEvent err) (mkEnv s (ctx_done e1)))
        as (k2 & e2 & Hsend & Hab2).
      rewrite (bind_Ret _ _ _ _ _ _ Hsend). cbn [ret]. run_norm.
      rewrite items_visible, resyncItems_visible, cursors_visible,
        timers_visible.
      rewrite (In_visible ActCtxDone), (In_visible ActClose) by discriminate.
      vis. repeat split; try (cbn; tauto); try (intuition discriminate).
      eapply Failed with (pre := []).
      * rewrite responses_visible. vis. reflexivity.
      * constructor.
      * rewrite sent_visible, items_visible. vis. reflexivity.
      * rewrite items_visible. vis. reflexivity.
      * rewrite calls_visible, responses_visible. vis. reflexivity.
    + set (tr0 := ActRequest (Client.client c) (pollCall imdbID)
                    (buildRequest c (pollCall imdbID))
                    :: repeat ActCancelled k
                    ++ [ActResponse (pollCall imdbID) (inr page)]).
      assert (Hv0 : visible tr0 =
                    [ActRequest (Client.client c) (pollCall imdbID)
                       (buildRequest c (pollCall imdbID));
                     ActResponse (pollCall imdbID) (inr page)])
        by (subst tr0; vis; reflexivity).
      assert (Hi0 : items tr0 = []) by (rewrite items_visible, Hv0; reflexivity).
      assert (Hs0 : sent tr0 = []) by (rewrite sent_visible, Hv0; reflexivity).
      assert (Hr0 : responses tr0 = [(pollCall imdbID, inr page)])
        by (rewrite responses_visible, Hv0; reflexivity).
      assert (Hc0 : calls tr0 = [pollCall imdbID])
        by (rewrite calls_visible, Hv0; reflexivity).
      assert (Hcu0 : cursors tr0 = []) by (rewrite cursors_visible, Hv0; reflexivity).
      assert (Hti0 : timers tr0 = []) by (rewrite timers_visible, Hv0; reflexivity).
      assert (Hri0 : resyncItems tr0 = [])
        by (rewrite resyncItems_visible, Hv0; reflexivity).
      assert (Hnd0 : ~ In ActCtxDone tr0).
      { rewrite (In_visible ActCtxDone), Hv0 by discriminate.
        cbn. intuition discriminate. }
      assert (Hnc0 : ~ In ActClose tr0).
      { rewrite (In_visible ActClose), Hv0 by discriminate.
        cbn. intuition discriminate. }
      destruct (Page.TorrentsCount page =? 0).
      * cbn [ret]. run_norm. rewrite app_nil_r.
        rewrite Hi0, Hcu0, Hti0, Hri0.
        repeat split; auto; try discriminate.
        apply Clean.
        -- rewrite Hr0. repeat constructor. now exists page.
        -- now rewrite Hs0, Hi0.
        -- intros v [= <-]. rewrite Hi0, Hc0, Hr0. split; reflexivity.
      * cbv zeta.
        destruct (resyncBackwards_inv c imdbID
                    (Z.to_nat (pageCount (Page.TorrentsCount page))) 0
                    (mkEnv s (ctx_done e1)))
          as (Hri & Hcu & Hti & Hnd & Hnc & Hfu & Hrun).
        run_norm.
        rewrite items_app, resyncItems_app, cursors_app, timers_app,
          Hi0, Hri0, Hcu0, Hti0, !in_app_iff.
        repeat split; try assumption; try tauto.
        apply ResyncRun_after_fetch with (o := pollCall imdbID) (page := page);
          auto.
  - rewrite (bind_Blocked _ _ _ _ _ Hget). run_norm.
    rewrite items_visible, resyncItems_visible, cursors_visible,
      timers_visible.
    rewrite (In_visible ActCtxDone), (In_visible ActClose) by discriminate.
    vis. repeat split; try (cbn; tauto); try (intuition discriminate).
    apply Clean.
    + rewrite responses_visible. vis. constructor.
    + rewrite sent_visible, items_visible. vis. reflexivity.
    + intros v [=].
Qed.

(** The resync never gives events back to the script. *)
Lemma resyncBackwards_script c imdbID i : forall cur0 e,
  (List.length (script (env_of (resyncBackwards c imdbID i cur0 e)))
   <= List.length (script e))%nat.
Proof.
  induction i as [|i IH]; intros cur0 e; [cbn; lia|].
  cbn [resyncBackwards].
  destruct (run_GetTorrents c (URLOptions.mk (Z.of_nat (S i)) MaxEZTVAPILimit imdbID) e)
    as (k & e1 & Hab & [(r & s & Hs & Hget)|(Hn & Hget)]);
    pose proof (absorbed_length _ _ _ Hab) as Hl.
  - rewrite (bind_Ret _ _ _ _ _ _ Hget). rewrite Hs in Hl. cbn in Hl.
    destruct r as [err|page].
    + destruct (run_send (errEvent err) (mkEnv s (ctx_done e1)))
        as (k2 & e2 & Hsend & Hab2).
      pose proof (absorbed_length _ _ _ Hab2) as Hl2. cbn in Hl2.
      rewrite (bind_Ret _ _ _ _ _ _ Hsend). run_norm. cbn. lia.
    + destruct (run_emitTorrents (rev (Page.Torrents page)) cur0
                  (mkEnv s (ctx_done e1)))
        as (tr2 & e2 & Hemit & _ & Hl2 & _).
      rewrite (bind_Ret _ _ _ _ _ _ Hemit). run_norm. cbn in Hl2.
      etransitivity; [apply IH|]. lia.
  - rewrite (bind_Blocked _ _ _ _ _ Hget). run_norm. exact Hl.
Qed.

Lemma fullStreamResync_script c imdbID e :
  (List.length (script (env_of (fullStreamResync c imdbID e)))
   <= List.length (script e))%nat.
Proof.
  unfold fullStreamResync.
  destruct (run_GetTorrents c (URLOptions.mk 1 1 imdbID) e)
    as (k & e1 & Hab & [(r & s & Hs & Hget)|(Hn & Hget)]);
    pose proof (absorbed_length _ _ _ Hab) as Hl.
  - rewrite (bind_Ret _ _ _ _ _ _ Hget). rewrite Hs in Hl. cbn in Hl.
    destruct r as [err|page].
    + destruct (run_send (errEvent err) (mkEnv s (ctx_done e1)))
        as (k2 & e2 & Hsend & Hab2).
      pose proof (absorbed_length _ _ _ Hab2) as Hl2. cbn in Hl2.
      rewrite (bind_Ret _ _ _ _ _ _ Hsend). run_norm. cbn. lia.
    + destruct (Page.TorrentsCount page =? 0).
      * cbn [ret]. run_norm. cbn. lia.
      * cbv zeta. run_norm.
        etransitivity; [apply resyncBackwards_script|]. cbn. lia.
  - rewrite (bind_Blocked _ _ _ _ _ Hget). run_norm. exact Hl.
Qed.

(** ** The goroutine of TorrentStream *)

(** With a key, the body is a resync phase [tr1] (empty when a cursor was
    supplied) that leaves the cursor [cur1], followed by the poll loop. *)
Lemma streamBody_shape fuel c o e :
  streamKey o <> "" ->
  exists tr1 cur1,
    items tr1 = resyncItems tr1 /\
    timers tr1 = [] /\
    ~ In ActCtxDone tr1 /\ ~ In ActClose tr1 /\
    (StreamOptions.LastTorrentID o <> 0 -> tr1 = []) /\
    cur1 = last (ids (items tr1)) (StreamOptions.LastTorrentID o) /\
    (cursors tr1 = ids (items tr1) \/ cursors tr1 = ids (items tr1) ++ [cur1]) /\
    ((exists e1, streamBody fuel c o e = (tr1, Blocked, e1)) \/
     (exists e1,
         (List.length (script e1) <= List.length (script e))%nat /\
         streamBody fuel c o e =
           (tr1 ++ trace_of (pollLoop fuel c (streamKey o) (streamInterval o) cur1 e1),
            outcome_of (pollLoop fuel c (streamKey o) (streamInterval o) cur1 e1),
            env_of (pollLoop fuel c (streamKey o) (streamInterval o) cur1 e1)))).
Proof.
  intros Hkey. unfold streamBody. fold (streamKey o). fold (streamInterval o).
  apply String.eqb_neq in Hkey. rewrite Hkey. cbv zeta.
  destruct (StreamOptions.LastTorrentID o =? 0) eqn:Hz.
  - apply Z.eqb_eq in Hz. rewrite Hz.
    destruct (fullStreamResync_inv c (streamKey o) e)
      as (Hri & Hcu & Hti & Hnd & Hnc & Hfu & Hrun).
    pose proof (fullStreamResync_script c (streamKey o) e) as Hlen.
    destruct (fullStreamResync c (streamKey o) e) as [[tr r] e1] eqn:Hx.
    unfold trace_of, outcome_of, env_of in *. cbn [fst snd] in *.
    destruct r as [v| |]; [| |congruence].
    + assert (Hv : v = last (ids (items tr)) 0).
      { destruct Hrun as [_ _ Hret|? ? ? _ _ _ Hout _].
        - now destruct (Hret v eq_refl).
        - congruence. }
      exists (tr ++ [ActSetCursor v]), v.
      assert (Hit : items (tr ++ [ActSetCursor v]) = items tr)
        by (rewrite items_app; cbn; now rewrite app_nil_r).
      rewrite Hit.
      split; [|split; [|split; [|split; [|split; [|split; [|split]]]]]].
      * rewrite resyncItems_app. cbn. rewrite app_nil_r. exact Hri.
      * rewrite timers_app, Hti. reflexivity.
      * rewrite in_app_iff. cbn. intuition discriminate.
      * rewrite in_app_iff. cbn. intuition discriminate.
      * intros H. now elim H.
      * exact Hv.
      * right. rewrite cursors_app, Hcu. reflexivity.
      * right. exists e1. split; [exact Hlen|].
        rewrite (bind_Ret _ _ e (tr ++ [ActSetCursor v]) v e1).
        -- reflexivity.
        -- rewrite (bind_Ret _ _ _ _ _ _ Hx).
           rewrite (bind_Ret _ _ e1 [ActSetCursor v] tt e1 eq_refl).
           reflexivity.
    + exists tr, (last (ids (items tr)) 0).
      repeat split; try assumption.
      * intros H. now elim H.
      * now left.
      * left. exists e1.
        rewrite (bind_Blocked _ _ e tr e1); [reflexivity|].
        rewrite (bind_Blocked _ _ _ _ _ Hx). reflexivity.
  - exists [], (StreamOptions.LastTorrentID o).
    repeat split; auto; try (cbn; tauto).
    right. exists e. split; [lia|].
    rewrite (bind_Ret _ _ e [] (StreamOptions.LastTorrentID o) e eq_refl).
    reflexivity.
Qed.

Lemma TorrentStream_shape c o e :
  StreamShape c o (trace_of (TorrentStream c o e))
              (outcome_of (TorrentStream c o e)).
Proof.
  unfold TorrentStream, deferClose.
  rewrite (bind_Ret _ _ e [ActGo] tt e eq_refl).
  set (fuel := S (List.length (script e))).
  destruct (String.eqb (streamKey o) "") eqn:Hkey.
  - apply String.eqb_eq in Hkey.
    destruct (run_send (errEvent ErrMissingImdbID) e) as (k & e1 & Hsend & _).
    assert (Hb : streamBody fuel c o e
                 = (repeat ActCancelled k ++ [ActSend (errEvent ErrMissingImdbID)],
                    Ret tt, e1)).
    { unfold streamBody. fold (streamKey o). rewrite Hkey. exact Hsend. }
    rewrite (bind_Ret _ _ _ _ _ _ Hb). run_norm. cbn [act]. run_norm.
    apply ShapeMissingKey with (k := k); [exact Hkey| |reflexivity].
    cbn. now rewrite <- app_assoc.
  - apply String.eqb_neq in Hkey.
    destruct (streamBody_shape fuel c o e Hkey)
      as (tr1 & cur1 & Hri & Hti & Hnd & Hnc & Hnz & Hcur & Hcu & Hb).
    destruct Hb as [(e1 & Hb)|(e1 & Hlen & Hb)].
    + rewrite (bind_Blocked _ _ _ _ _ Hb). run_norm.
      apply ShapeStream with (tr1 := tr1) (cur1 := cur1) (fuel := O)
                             (e1 := e1) (closing := []); auto.
      cbn. now rewrite app_nil_r.
    + pose proof (pollLoop_fuel c (streamKey o) (streamInterval o) fuel cur1 e1)
        as Hfuel.
      destruct (pollLoop_return c (streamKey o) (streamInterval o) fuel cur1 e1)
        as (Hcl & Hret).
      destruct (pollLoop fuel c (streamKey o) (streamInterval o) cur1 e1)
        as [[tr2 r2] e2] eqn:Hp.
      unfold trace_of, outcome_of, env_of in *. cbn [fst snd] in *.
      assert (Hp' : (tr2, r2, e2)
                    = (trace_of (pollLoop fuel c (streamKey o) (streamInterval o) cur1 e1),
                       outcome_of (pollLoop fuel c (streamKey o) (streamInterval o) cur1 e1),
                       env_of (pollLoop fuel c (streamKey o) (streamInterval o) cur1 e1)))
        by (rewrite Hp; reflexivity).
      destruct r2 as [[]| |].
      * rewrite (bind_Ret _ _ _ _ _ _ Hb). cbn.
        apply ShapeStream with (tr1 := tr1) (cur1 := cur1) (fuel := fuel)
                               (e1 := e1) (closing := [ActClose]); auto.
        -- rewrite Hp. cbn. now rewrite <- app_assoc.
        -- right. rewrite Hp. cbn.
           destruct Hret as [(_ & Hpre)|(Hn & _)]; [auto|congruence].
      * rewrite (bind_Blocked _ _ _ _ _ Hb). cbn.
        apply ShapeStream with (tr1 := tr1) (cur1 := cur1) (fuel := fuel)
                               (e1 := e1) (closing := []); auto.
        -- rewrite Hp. cbn. now rewrite app_nil_r.
        -- left. rewrite Hp. cbn.
           destruct Hret as [(Ho & _)|(_ & Hn)]; [congruence|auto].
      * exfalso. apply Hfuel; [|reflexivity]. subst fuel. lia.
Qed.

(** The goroutine never runs out of loop fuel: it returns or stays
    blocked on its environment. *)
Lemma TorrentStream_total c o e :
  outcome_of (TorrentStream c o e) = Ret tt \/
  outcome_of (TorrentStream c o e) = Blocked.
Proof.
  destruct (TorrentStream_shape c o e) as [k _ _ Ho|? ? ? ? ? _ _ _ _ _ _ _ _ _ Hc].
  - now left.
  - destruct Hc as [(_ & Ho & _)|(_ & Ho & _)]; auto.
Qed.

(** ** Ordered lists *)

Lemma StronglySorted_app (l1 l2 : list Z) :
  StronglySorted Z.lt l1 -> StronglySorted Z.lt l2 ->
  (forall x y, In x l1 -> In y l2 -> x < y) ->
  StronglySorted Z.lt (l1 ++ l2).
Proof.
  induction l1 as [|a l1 IH]; intros H1 H2 H; [exact H2|].
  inversion H1 as [|? ? Hs Hf]; subst. cbn. constructor.
  - apply IH; auto. intros x y Hx Hy. apply H; [now right|exact Hy].
  - apply Forall_app. split; [exact Hf|].
    apply Forall_forall. intros y Hy. apply H; [now left|exact Hy].
Qed.

Lemma StronglySorted_le_last (l : list Z) (d x : Z) :
  StronglySorted Z.lt l -> In x l -> x <= last l d.
Proof.
  revert x. induction l as [|a l IH]; intros x Hs Hin; [destruct Hin|].
  inversion Hs as [|? ? Hs' Hf]; subst.
  destruct l as [|b l].
  - destruct Hin as [->|[]]. cbn. lia.
  - change (last (a :: b :: l) d) with (last (b :: l) d).
    destruct Hin as [->|Hin].
    + assert (Hb : b <= last (b :: l) d) by (apply IH; [exact Hs'|now left]).
      inversion Hf; subst. lia.
    + now apply IH.
Qed.

Lemma chain_Sorted R a l : chain R a l <-> Sorted R (a :: l).
Proof.
  revert a. induction l as [|x l IH]; intros a; cbn.
  - split; auto.
  - split.
    + intros (Hax & Hc). constructor; [now apply IH|now constructor].
    + intros H. inversion H as [|? ? Hs Hh]; subst.
      inversion Hh; subst. split; [assumption|now apply IH].
Qed.

Lemma chain_app R a l1 l2 :
  chain R a (l1 ++ l2) <-> chain R a l1 /\ chain R (last l1 a) l2.
Proof.
  revert a. induction l1 as [|x l1 IH]; intros a.
  - cbn. tauto.
  - cbn [app chain]. rewrite IH.
    assert (Hl : last (x :: l1) a = last l1 x).
    { destruct l1 as [|y l1]; [reflexivity|].
      change (last (x :: y :: l1) a) with (last (y :: l1) a).
      apply last_cons_default. }
    rewrite Hl. tauto.
Qed.

Lemma chain_le_above (cur : Z) (l : list Z) :
  Forall (Z.lt cur) l -> StronglySorted Z.lt l -> chain Z.le cur l.
Proof.
  revert cur. induction l as [|x l IH]; intros cur Hf Hs; cbn; [exact I|].
  inversion Hf; subst. inversion Hs; subst.
  split; [lia|]. now apply IH.
Qed.

Lemma chain_lt_above (cur : Z) (l : list Z) :
  Forall (Z.lt cur) l -> StronglySorted Z.lt l -> chain Z.lt cur l.
Proof.
  revert cur. induction l as [|x l IH]; intros cur Hf Hs; cbn; [exact I|].
  inversion Hf; subst. inversion Hs; subst.
  split; [assumption|]. now apply IH.
Qed.

(** What the projections see of a stream with a key. *)
Lemma stream_projections tr1 tr2 closing :
  closing = [] \/ closing = [ActClose] ->
  let tr := ActGo :: tr1 ++ tr2 ++ closing in
  items tr = items tr1 ++ items tr2 /\
  resyncItems tr = resyncItems tr1 ++ resyncItems tr2 /\
  cursors tr = cursors tr1 ++ cursors tr2 /\
  timers tr = timers tr1 ++ timers tr2.
Proof.
  intros Hc tr. subst tr.
  change (ActGo :: tr1 ++ tr2 ++ closing) with ([ActGo] ++ tr1 ++ tr2 ++ closing).
  rewrite !items_app, !resyncItems_app, !cursors_app, !timers_app.
  destruct Hc as [-> | ->]; cbn; rewrite !app_nil_r; auto.
Qed.

Lemma missing_key_projections k :
  let tr := ActGo :: repeat ActCancelled k
              ++ [ActSend (errEvent ErrMissingImdbID); ActClose] in
  sent tr = [errEvent ErrMissingImdbID] /\
  items tr = [] /\ cursors tr = [] /\ timers tr = [] /\
  calls tr = [] /\ requests tr = [] /\ resyncItems tr = [].
Proof.
  cbv zeta.
  rewrite sent_visible, items_visible, cursors_visible, timers_visible,
    calls_visible, requests_visible, resyncItems_visible.
  vis. repeat split; reflexivity.
Qed.

(** * The claims

    C1 to C10, each with the stream it fails on when it does. *)

(** ** C1: order of the emitted items *)

(** C1, as stated, fails: with the pages of [shiftedPages] the stream
    emits 1004, 1008, 1006, 1009, so 1008 is emitted before 1006. *)
Lemma items_not_increasing_on_shifted_pages :
  ids (items (trace_of (TorrentStream (New []) resyncOptions shiftedPages)))
  = [1004; 1008; 1006; 1009]
  /\ ~ StronglySorted Z.lt
        (ids (items (trace_of (TorrentStream (New []) resyncOptions shiftedPages)))).
Proof.
  assert (H : ids (items (trace_of (TorrentStream (New []) resyncOptions shiftedPages)))
              = [1004; 1008; 1006; 1009]) by (vm_compute; reflexivity).
  split; [exact H|].
  rewrite H. intros Hs.
  inversion Hs as [|? ? Hs1 _]; subst.
  inversion Hs1 as [|? ? _ Hf]; subst.
  inversion Hf; subst. lia.
Qed.

(** C1 (amended): whenever the pages returned to the resync fetches, each
    reversed and taken in the order fetched, are strictly increasing in
    ID, the successful items emitted over the whole stream (resync, then
    poll loop) are strictly increasing in ID. *)
Theorem items_increasing_when_resync_pages_increase c o e :
  let tr := trace_of (TorrentStream c o e) in
  StronglySorted Z.lt (ids (resyncItems tr)) ->
  StronglySorted Z.lt (ids (items tr)).
Proof.
  cbv zeta.
  destruct (TorrentStream_shape c o e)
    as [k _ Htr _|tr1 cur1 fuel e1 closing _ Htr Hri Hti _ _ _ Hcur _ Hcl].
  - rewrite Htr.
    destruct (missing_key_projections k) as (_ & -> & _). constructor.
  - rewrite Htr.
    assert (Hc : closing = [] \/ closing = [ActClose])
      by (destruct Hcl as [(-> & _)|(-> & _)]; auto).
    destruct (stream_projections tr1
                (trace_of (pollLoop fuel c (streamKey o) (streamInterval o) cur1 e1))
                closing Hc) as (-> & -> & _).
    rewrite pollLoop_resyncItems, app_nil_r, <- Hri, ids_app.
    destruct (pollLoop_items c (streamKey o) (streamInterval o) fuel cur1 e1)
      as (Hab & Hss & _).
    intros H1. apply StronglySorted_app; [exact H1|exact Hss|].
    intros x y Hx Hy.
    assert (x <= cur1)
      by (rewrite Hcur; now apply StronglySorted_le_last).
    rewrite Forall_forall in Hab. specialize (Hab y Hy). lia.
Qed.

Lemma items_increasing_witness :
  StronglySorted Z.lt
    (ids (resyncItems (trace_of (TorrentStream (New []) resyncOptions orderedPages))))
  /\ StronglySorted Z.lt
       (ids (items (trace_of (TorrentStream (New []) resyncOptions orderedPages)))).
Proof.
  assert (H : StronglySorted Z.lt
                (ids (resyncItems
                        (trace_of (TorrentStream (New []) resyncOptions orderedPages))))).
  { vm_compute. repeat constructor. }
  split; [exact H|].
  apply (items_increasing_when_resync_pages_increase (New []) resyncOptions
           orderedPages).
  exact H.
Defined.

(** ** C2: nothing at or below the cursor *)

(** C2, as stated, fails: with the pages of [overlappingPages] the resync
    emits 1005 a second time while the cursor is 1005. *)
Lemma resync_emits_at_cursor_on_overlapping_pages :
  ids (items (trace_of (TorrentStream (New []) resyncOptions overlappingPages)))
  = [1005; 1005; 1007]
  /\ ~ aboveCursor (StreamOptions.LastTorrentID resyncOptions)
        (ids (items (trace_of (TorrentStream (New []) resyncOptions overlappingPages)))).
Proof.
  assert (H : ids (items (trace_of (TorrentStream (New []) resyncOptions overlappingPages)))
              = [1005; 1005; 1007]) by (vm_compute; reflexivity).
  split; [exact H|].
  rewrite H. cbn. lia.
Qed.

Lemma pollLoop_quiet_tick fuel c imdbID d cur page t0 ts s :
  Page.Torrents page = t0 :: ts ->
  Torrent.ID t0 <= cur ->
  pollLoop (S fuel) c imdbID d cur (mkEnv (EvTimer :: EvResponse (inr page) :: s) false)
  = (quietTick c imdbID d page
       ++ trace_of (pollLoop fuel c imdbID d cur (mkEnv s false)),
     outcome_of (pollLoop fuel c imdbID d cur (mkEnv s false)),
     env_of (pollLoop fuel c imdbID d cur (mkEnv s false))).
Proof.
  intros Hts Hle. apply Z.leb_le in Hle.
  cbn [pollLoop]. fold (pollCall imdbID).
  rewrite (bind_Ret (selectDoneOrAfter d) _
             (mkEnv (EvTimer :: EvResponse (inr page) :: s) false)
             [ActAfter d; ActTimer] CaseTimer
             (mkEnv (EvResponse (inr page) :: s) false) eq_refl).
  rewrite (bind_Ret (GetTorrents c (pollCall imdbID)) _
             (mkEnv (EvResponse (inr page) :: s) false)
             [ActRequest (Client.client c) (pollCall imdbID)
                (buildRequest c (pollCall imdbID));
              ActResponse (pollCall imdbID) (inr page)]
             (inr page) (mkEnv s false) eq_refl).
  rewrite Hts, Hle. reflexivity.
Qed.

(** C2 (amended): the poll loop never emits an item whose ID is at or
    below the cursor: entered with cursor [cur] it emits only IDs above
    [cur], each above the one before, and these IDs are exactly the values
    it gives the cursor.  In particular a stream opened with a non-zero
    [LastTorrentID] emits only IDs above it, and a tick whose newest item
    has the ID of the cursor sends nothing and leaves the cursor alone.
    (The resync emits what its pages hold without looking at the cursor.) *)
Theorem poll_loop_emits_only_above_cursor :
  (forall fuel c imdbID d cur e,
      let tr := trace_of (pollLoop fuel c imdbID d cur e) in
      aboveCursor cur (ids (items tr)) /\
      Forall (Z.lt cur) (ids (items tr)) /\
      cursors tr = ids (items tr))
  /\ (forall c o e,
         StreamOptions.LastTorrentID o <> 0 ->
         let tr := trace_of (TorrentStream c o e) in
         aboveCursor (StreamOptions.LastTorrentID o) (ids (items tr)) /\
         Forall (Z.lt (StreamOptions.LastTorrentID o)) (ids (items tr)))
  /\ (forall fuel c imdbID d cur page t0 ts s,
         Page.Torrents page = t0 :: ts ->
         Torrent.ID t0 = cur ->
         sent (quietTick c imdbID d page) = [] /\
         cursors (quietTick c imdbID d page) = [] /\
         pollLoop (S fuel) c imdbID d cur
                  (mkEnv (EvTimer :: EvResponse (inr page) :: s) false)
         = (quietTick c imdbID d page
              ++ trace_of (pollLoop fuel c imdbID d cur (mkEnv s false)),
            outcome_of (pollLoop fuel c imdbID d cur (mkEnv s false)),
            env_of (pollLoop fuel c imdbID d cur (mkEnv s false)))).
Proof.
  split; [|split].
  - intros fuel c imdbID d cur e tr.
    destruct (pollLoop_items c imdbID d fuel cur e) as (Hf & Hs & Hc).
    subst tr. repeat split; try assumption.
    now apply chain_lt_above.
  - intros c o e Hnz tr. subst tr.
    destruct (TorrentStream_shape c o e)
      as [k _ Htr _|tr1 cur1 fuel e1 closing _ Htr _ _ _ _ Hnil Hcur _ Hcl].
    + rewrite Htr.
      destruct (missing_key_projections k) as (_ & -> & _).
      split; constructor.
    + rewrite Htr.
      assert (Hc : closing = [] \/ closing = [ActClose])
        by (destruct Hcl as [(-> & _)|(-> & _)]; auto).
      destruct (stream_projections tr1
                  (trace_of (pollLoop fuel c (streamKey o) (streamInterval o) cur1 e1))
                  closing Hc) as (-> & _).
      rewrite (Hnil Hnz) in *. cbn in Hcur. subst cur1. cbn [items flat_map app].
      destruct (pollLoop_items c (streamKey o) (streamInterval o) fuel
                  (StreamOptions.LastTorrentID o) e1) as (Hf & Hs & _).
      split; [now apply chain_lt_above|exact Hf].
  - intros fuel c imdbID d cur page t0 ts s Hts Hid.
    split; [reflexivity|split; [reflexivity|]].
    apply pollLoop_quiet_tick with (t0 := t0) (ts := ts); [exact Hts|lia].
Qed.

Lemma poll_loop_above_cursor_witness :
  StreamOptions.LastTorrentID resumedOptions <> 0 /\
  Forall (Z.lt 50)
    (ids (items (trace_of (TorrentStream (New []) resumedOptions resumedTicks)))) /\
  ids (items (trace_of (TorrentStream (New []) resumedOptions resumedTicks))) = [51].
Proof.
  assert (Hnz : StreamOptions.LastTorrentID resumedOptions <> 0)
    by (cbn; lia).
  split; [exact Hnz|]. split; [|vm_compute; reflexivity].
  exact (proj2 (proj1 (proj2 poll_loop_emits_only_above_cursor)
                  (New []) resumedOptions resumedTicks Hnz)).
Defined.

(** ** C8: the cursor never decreases *)

(** C8, as stated, fails: with the pages of [unorderedPages] the cursor is
    set to 10, 30, 20, 40 (and to 40 again when the resync returns): the
    third update lowers it. *)
Lemma cursor_decreases_on_unordered_pages :
  cursors (trace_of (TorrentStream (New []) resyncOptions unorderedPages))
  = [10; 30; 20; 40; 40]
  /\ ~ Sorted Z.le
        (StreamOptions.LastTorrentID resyncOptions
           :: cursors (trace_of (TorrentStream (New []) resyncOptions unorderedPages))).
Proof.
  assert (H : cursors (trace_of (TorrentStream (New []) resyncOptions unorderedPages))
              = [10; 30; 20; 40; 40]) by (vm_compute; reflexivity).
  split; [exact H|].
  rewrite H. intros Hs. apply chain_Sorted in Hs. cbn in Hs. lia.
Qed.

(** C8 (amended): whenever the pages returned to the resync fetches, each
    reversed and taken in the order fetched, have non-decreasing IDs that
    are not negative, every update of the cursor over the whole stream sets
    it to a value greater than or equal to the one it had; the updates of
    the poll loop do so whatever the pages are. *)
Theorem cursor_non_decreasing_when_resync_pages_do_not_decrease :
  (forall c o e,
      let tr := trace_of (TorrentStream c o e) in
      Sorted Z.le (0 :: ids (resyncItems tr)) ->
      Sorted Z.le (StreamOptions.LastTorrentID o :: cursors tr))
  /\ (forall fuel c imdbID d cur e,
         Sorted Z.le (cur :: cursors (trace_of (pollLoop fuel c imdbID d cur e)))).
Proof.
  split.
  - intros c o e. cbv zeta.
    destruct (TorrentStream_shape c o e)
      as [k _ Htr _|tr1 cur1 fuel e1 closing _ Htr Hri _ _ _ Hnil Hcur Hcu Hcl].
    + rewrite Htr.
      destruct (missing_key_projections k) as (_ & _ & -> & _).
      intros _. repeat constructor.
    + rewrite Htr.
      assert (Hc : closing = [] \/ closing = [ActClose])
        by (destruct Hcl as [(-> & _)|(-> & _)]; auto).
      destruct (stream_projections tr1
                  (trace_of (pollLoop fuel c (streamKey o) (streamInterval o) cur1 e1))
                  closing Hc) as (_ & -> & -> & _).
      rewrite pollLoop_resyncItems, app_nil_r, <- Hri.
      destruct (pollLoop_items c (streamKey o) (streamInterval o) fuel cur1 e1)
        as (Hf & Hs & ->).
      pose proof (chain_le_above _ _ Hf Hs) as Hpoll.
      intros H1. apply chain_Sorted in H1. apply chain_Sorted.
      destruct (Z.eq_dec (StreamOptions.LastTorrentID o) 0) as [Hz|Hnz].
      * rewrite Hz in *.
        apply chain_app. split.
        -- destruct Hcu as [-> | ->]; [exact H1|].
           apply chain_app. split; [exact H1|].
           cbn. rewrite <- Hcur. split; [lia|exact I].
        -- destruct Hcu as [-> | ->].
           ++ rewrite <- Hcur. exact Hpoll.
           ++ rewrite last_app_default. cbn. exact Hpoll.
      * rewrite (Hnil Hnz) in *. cbn in Hcur. subst cur1. exact Hpoll.
  - intros fuel c imdbID d cur e.
    destruct (pollLoop_items c imdbID d fuel cur e) as (Hf & Hs & ->).
    apply chain_Sorted. now apply chain_le_above.
Qed.

Lemma cursor_non_decreasing_witness :
  Sorted Z.le
    (0 :: ids (resyncItems (trace_of (TorrentStream (New []) resyncOptions orderedPages))))
  /\ Sorted Z.le
       (0 :: cursors (trace_of (TorrentStream (New []) resyncOptions orderedPages))).
Proof.
  assert (H : Sorted Z.le
                (0 :: ids (resyncItems
                             (trace_of (TorrentStream (New []) resyncOptions orderedPages))))).
  { vm_compute. repeat constructor; discriminate. }
  split; [exact H|].
  apply (proj1 cursor_non_decreasing_when_resync_pages_do_not_decrease (New [])
           resyncOptions orderedPages).
  exact H.
Defined.

(** ** C9: the recheck interval *)

Lemma bind_ret_l {A B} (a : A) (f : A -> M B) e : bind (ret a) f e = f a e.
Proof. unfold bind, ret. destruct (f a e) as [[tr r] e']. reflexivity. Qed.

Lemma TorrentStream_trace c o e :
  exists closing,
    (closing = [] \/ closing = [ActClose]) /\
    trace_of (TorrentStream c o e)
    = ActGo :: trace_of (streamBody (S (List.length (script e))) c o e) ++ closing.
Proof.
  unfold TorrentStream, deferClose.
  rewrite (bind_Ret _ _ e [ActGo] tt e eq_refl).
  destruct (streamBody (S (List.length (script e))) c o e) as [[tr [[]| |]] e1] eqn:Hb.
  - exists [ActClose]. split; [now right|].
    rewrite (bind_Ret _ _ _ _ _ _ Hb). reflexivity.
  - exists []. split; [now left|].
    rewrite (bind_Blocked _ _ _ _ _ Hb). cbn. now rewrite app_nil_r.
  - exists []. split; [now left|].
    rewrite (bind_OutOfFuel _ _ _ _ _ Hb). cbn. now rewrite app_nil_r.
Qed.

Lemma streamBody_resumed fuel c o e :
  streamKey o <> "" ->
  StreamOptions.LastTorrentID o <> 0 ->
  streamBody fuel c o e
  = pollLoop fuel c (streamKey o) (streamInterval o)
             (StreamOptions.LastTorrentID o) e.
Proof.
  intros Hkey Hnz. unfold streamBody. fold (streamKey o). fold (streamInterval o).
  apply String.eqb_neq in Hkey. apply Z.eqb_neq in Hnz.
  rewrite Hkey, Hnz. cbv zeta. apply bind_ret_l.
Qed.

Lemma pollLoop_first_timer fuel c imdbID d cur e :
  exists rest,
    timers (trace_of (pollLoop (S fuel) c imdbID d cur e)) = d :: rest.
Proof.
  destruct (pollLoop_step fuel c imdbID d cur e)
    as [(k & e1 & _ & _ & Hx)|[(tr0 & e1 & Hx & Hv)|(tr0 & cur' & e1 & HT & _ & Hx)]];
    rewrite Hx; run_norm.
  - eexists. rewrite timers_visible. vis. reflexivity.
  - rewrite timers_visible.
    destruct Hv as [Hv|Hv]; rewrite Hv; eexists; reflexivity.
  - destruct (Tick_facts _ _ _ _ _ _ HT) as (Ht & _).
    rewrite timers_app, Ht. eexists. reflexivity.
Qed.

(** C9: every [time.After] of a stream is given [StreamRecheckInterval],
    which is 5 minutes, when [RecheckInterval] is zero, and
    [RecheckInterval] itself otherwise; a stream that is opened with a key
    and a cursor starts its first wait with that interval. *)
Theorem recheck_interval_defaults_to_five_minutes c o e :
  StreamRecheckInterval = 5 * 60 * 1000000000 /\
  Forall (eq (if StreamOptions.RecheckInterval o =? 0
              then StreamRecheckInterval
              else StreamOptions.RecheckInterval o))
         (timers (trace_of (TorrentStream c o e))) /\
  (TrimPrefix (StreamOptions.ImdbID o) "tt" <> "" ->
   StreamOptions.LastTorrentID o <> 0 ->
   exists rest,
     timers (trace_of (TorrentStream c o e))
     = (if StreamOptions.RecheckInterval o =? 0
        then StreamRecheckInterval
        else StreamOptions.RecheckInterval o) :: rest).
Proof.
  fold (streamInterval o). fold (streamKey o).
  split; [reflexivity|split].
  - destruct (TorrentStream_shape c o e)
      as [k _ Htr _|tr1 cur1 fuel e1 closing _ Htr _ Hti _ _ _ _ _ Hcl].
    + rewrite Htr.
      destruct (missing_key_projections k) as (_ & _ & _ & -> & _). constructor.
    + rewrite Htr.
      assert (Hc : closing = [] \/ closing = [ActClose])
        by (destruct Hcl as [(-> & _)|(-> & _)]; auto).
      destruct (stream_projections tr1
                  (trace_of (pollLoop fuel c (streamKey o) (streamInterval o) cur1 e1))
                  closing Hc) as (_ & _ & _ & ->).
      rewrite Hti. apply pollLoop_timers.
  - intros Hkey Hnz.
    destruct (TorrentStream_trace c o e) as (closing & Hc & ->).
    rewrite (streamBody_resumed _ _ _ _ Hkey Hnz).
    destruct (pollLoop_first_timer (List.length (script e)) c (streamKey o)
                (streamInterval o) (StreamOptions.LastTorrentID o) e)
      as (rest & Hrest).
    exists rest.
    change (ActGo :: ?a ++ closing) with ([ActGo] ++ a ++ closing).
    rewrite !timers_app, Hrest.
    destruct Hc as [-> | ->]; cbn; now rewrite app_nil_r.
Qed.

Lemma recheck_interval_witness :
  exists rest,
    timers (trace_of (TorrentStream (New []) resumedOptions resumedTicks))
    = 300000000000 :: rest.
Proof.
  apply (proj2 (proj2 (recheck_interval_defaults_to_five_minutes
                         (New []) resumedOptions resumedTicks))).
  - vm_compute. discriminate.
  - vm_compute. discriminate.
Defined.

(** ** C10: the base URL of GetTorrents *)

Lemma requests_GetTorrents c o e :
  requests (trace_of (GetTorrents c o e)) = [buildRequest c o].
Proof.
  destruct (run_GetTorrents c o e)
    as (k & e1 & _ & [(r & s & _ & Hget)|(_ & Hget)]);
    rewrite Hget; run_norm; rewrite requests_visible; vis; reflexivity.
Qed.

(** [GetTorrents] uses nothing of the client but its [client] field. *)
Lemma GetTorrents_same_transport c c' o e :
  Client.client c = Client.client c' ->
  GetTorrents c o e = GetTorrents c' o e.
Proof.
  intros H. unfold GetTorrents. rewrite H. reflexivity.
Qed.

(** C10: a client built with [WithBaseURL u] keeps [u] in its [baseURL]
    field, yet [GetTorrents] hands the transport one request whose URL is
    [EZTVBaseURL] followed by [/get-torrents], and runs exactly as it does
    for a client built without the option. *)
Theorem GetTorrents_ignores_WithBaseURL ops u o e :
  let c := New (ops ++ [WithBaseURL u]) in
  Client.baseURL c = u /\
  requests (trace_of (GetTorrents c o e)) = [buildRequest c o] /\
  Request.URL (buildRequest c o) = "https://eztv.re/api/get-torrents" /\
  GetTorrents c o e = GetTorrents (New ops) o e.
Proof.
  cbv zeta. split; [|split; [|split]].
  - unfold New. rewrite fold_left_app. reflexivity.
  - apply requests_GetTorrents.
  - reflexivity.
  - apply GetTorrents_same_transport.
    unfold New. rewrite fold_left_app. reflexivity.
Qed.

(** ** C5: a stream without a key *)

(** C5, as stated, fails: the key is tested inside the goroutine, so one
    goroutine is started also for an empty key. *)
Lemma goroutine_started_for_empty_key :
  spawned
    (trace_of (TorrentStream (New []) (StreamOptions.mk "" 0 0) (mkEnv [] false)))
  = 1%nat
  /\ ~ (onlyMissingKeyError
         (trace_of (TorrentStream (New []) (StreamOptions.mk "" 0 0) (mkEnv [] false)))
       /\ spawned
            (trace_of (TorrentStream (New []) (StreamOptions.mk "" 0 0) (mkEnv [] false)))
          = 0%nat).
Proof.
  split; [vm_compute; reflexivity|].
  intros (_ & H). vm_compute in H. discriminate.
Qed.

(** C5 (amended): if [ImdbID] is empty, the goroutine that every stream
    starts sends one event, the error [ErrMissingImdbID], and returns, which
    closes the channel; it calls the page fetcher not once and starts no
    timer. *)
Theorem missing_key_emits_one_error_and_closes c o e :
  StreamOptions.ImdbID o = "" ->
  let x := TorrentStream c o e in
  onlyMissingKeyError (trace_of x) /\
  outcome_of x = Ret tt /\
  spawned (trace_of x) = 1%nat /\
  requests (trace_of x) = [] /\
  timers (trace_of x) = [].
Proof.
  intros Hempty. cbv zeta.
  destruct (TorrentStream_shape c o e) as [k _ Htr Ho|? ? ? ? ? Hkey].
  - rewrite Htr, Ho.
    destruct (missing_key_projections k) as (Hs & _ & _ & Ht & Hc & Hr & _).
    split; [|repeat split; auto].
    + split; [exact Hs|split; [|exact Hc]].
      exists (ActGo :: repeat ActCancelled k ++ [ActSend (errEvent ErrMissingImdbID)]).
      cbn. now rewrite <- app_assoc.
    + unfold spawned. cbn. rewrite filter_app. cbn.
      rewrite length_app. cbn.
      assert (Hf : filter (fun a => match a with ActGo => true | _ => false end)
                          (repeat ActCancelled k) = []).
      { clear. induction k; cbn; auto. }
      rewrite Hf. reflexivity.
  - exfalso. apply Hkey. unfold streamKey. rewrite Hempty. reflexivity.
Qed.

Lemma missing_key_witness :
  StreamOptions.ImdbID (StreamOptions.mk "" 0 0) = "" /\
  sent (trace_of (TorrentStream (New []) (StreamOptions.mk "" 0 0)
                    (mkEnv [EvTimer] false)))
  = [errEvent ErrMissingImdbID].
Proof.
  split; [reflexivity|].
  exact (proj1 (proj1 (missing_key_emits_one_error_and_closes
                         (New []) (StreamOptions.mk "" 0 0) (mkEnv [EvTimer] false)
                         eq_refl))).
Defined.

(** ** C7: a failed fetch in the poll loop *)







(** ** C6: a failed fetch in the resync *)

Lemma errors_sent tr : errors tr = flat_map errorOf (sent tr).
Proof.
  induction tr as [|a tr IH]; [reflexivity|].
  unfold errors, sent in *. cbn [flat_map].
  rewrite flat_map_app, <- IH.
  destruct a as [| | |[t [err|]]| | | | | |]; reflexivity.
Qed.

Lemma errors_okEvents ts : flat_map errorOf (map okEvent ts) = [].
Proof. induction ts as [|t ts IH]; cbn; auto. Qed.

Lemma fullStreamResync_first_call c imdbID e :
  exists rest,
    calls (trace_of (fullStreamResync c imdbID e)) = URLOptions.mk 1 1 imdbID :: rest.
Proof.
  unfold fullStreamResync.
  destruct (run_GetTorrents c (URLOptions.mk 1 1 imdbID) e)
    as (k & e1 & _ & [(r & s & _ & Hget)|(_ & Hget)]).
  - rewrite (bind_Ret _ _ _ _ _ _ Hget). run_norm.
    rewrite calls_app, (calls_visible (ActRequest _ _ _ :: _)). vis.
    eexists. reflexivity.
  - rewrite (bind_Blocked _ _ _ _ _ Hget). run_norm.
    rewrite calls_visible. vis. eexists. reflexivity.
Qed.

(** C6: if a fetch of the resync fails with [err], that fetch is the last
    one the resync makes (nothing is fetched again), the error is the one
    error event and the last event of the resync, and the resync returns
    the ID of the last item it emitted, or 0 if it emitted none; when the
    failed fetch is the first one, it is the discovery fetch (page 1,
    limit 1), no item was emitted and 0 is returned. *)
Theorem resync_fetch_failure_aborts c imdbID e o err :
  let x := fullStreamResync c imdbID e in
  let tr := trace_of x in
  In (o, inl err) (responses tr) ->
  (exists pre,
      responses tr = pre ++ [(o, inl err)] /\ Forall succeeded pre /\
      (pre = [] ->
       o = URLOptions.mk 1 1 imdbID /\ sent tr = [errEvent err] /\
       outcome_of x = Ret 0)) /\
  calls tr = map fst (responses tr) /\
  errors tr = [err] /\
  sent tr = map okEvent (items tr) ++ [errEvent err] /\
  outcome_of x = Ret (last (ids (items tr)) 0) /\
  (forall ts t, items tr = ts ++ [t] -> outcome_of x = Ret (Torrent.ID t)).
Proof.
  cbv zeta. intros Hin.
  destruct (fullStreamResync_inv c imdbID e) as (Hri & _ & _ & _ & _ & _ & Hrun).
  destruct (fullStreamResync_first_call c imdbID e) as (rest & Hfirst).
  destruct Hrun as [Hall _ _|o' err' pre Hre Hall Hse Hout Hca].
  - exfalso. rewrite Forall_forall in Hall.
    destruct (Hall _ Hin) as (page & Hp). discriminate.
  - assert (Heq : (o', inl err') = (o, @inl error Page.t err)).
    { rewrite Hre in Hin. apply in_app_or in Hin. destruct Hin as [Hin|[Hin|[]]].
      - rewrite Forall_forall in Hall. destruct (Hall _ Hin) as (page & Hp).
        discriminate.
      - exact Hin. }
    injection Heq as -> ->.
    split; [|split; [exact Hca|split; [|split; [exact Hse|split; [exact Hout|]]]]].
    + exists pre. split; [exact Hre|split; [exact Hall|]].
      intros ->. cbn in Hre.
      assert (Hit : items (trace_of (fullStreamResync c imdbID e)) = []).
      { rewrite Hri. unfold resyncItems. rewrite Hre. reflexivity. }
      rewrite Hca, Hre in Hfirst. cbn in Hfirst.
      split; [congruence|]. rewrite Hse, Hout, Hit. split; reflexivity.
    + rewrite errors_sent, Hse, flat_map_app, errors_okEvents. reflexivity.
    + intros ts t Hit. rewrite Hout, Hit, ids_app, last_app_default.
      reflexivity.
Qed.

Lemma resync_fetch_failure_witness :
  In (URLOptions.mk 1 100 "1", inl (ErrUpstream "connection reset"))
     (responses (trace_of (fullStreamResync (New []) "1" secondPageFails)))
  /\ outcome_of (fullStreamResync (New []) "1" secondPageFails) = Ret 1002
  /\ errors (trace_of (fullStreamResync (New []) "1" secondPageFails))
     = [ErrUpstream "connection reset"].
Proof.
  assert (Hin : In (URLOptions.mk 1 100 "1", inl (ErrUpstream "connection reset"))
                   (responses (trace_of (fullStreamResync (New []) "1" secondPageFails)))).
  { vm_compute. right. right. left. reflexivity. }
  pose proof (resync_fetch_failure_aborts (New []) "1" secondPageFails
                (URLOptions.mk 1 100 "1") (ErrUpstream "connection reset") Hin)
    as (_ & _ & Herr & _ & _ & Hlast).
  split; [exact Hin|]. split; [|exact Herr].
  apply (Hlast [torrentWithID 1001] (torrentWithID 1002)).
  vm_compute. reflexivity.
Defined.

(** ** C3: a resync of 250 torrents *)

Lemma GetTorrents_ready c o r s done :
  GetTorrents c o (mkEnv (EvResponse r :: s) done)
  = ([ActRequest (Client.client c) o
        (buildRequest c o); ActResponse o r], Ret r, mkEnv s done).
Proof. reflexivity. Qed.

Lemma three_pages_of_250 (all : list Torrent.t) :
  List.length all = 250%nat ->
  rev (paginate all 3 100) ++ rev (paginate all 2 100) ++ rev (paginate all 1 100)
  = rev all.
Proof.
  intros Hlen.
  change (paginate all 3 100) with (firstn 100 (skipn 200 all)).
  change (paginate all 2 100) with (firstn 100 (skipn 100 all)).
  change (paginate all 1 100) with (firstn 100 all).
  rewrite (firstn_all2 (n := 100) (skipn 200 all))
    by (rewrite length_skipn; lia).
  assert (E2 : firstn 100 (skipn 100 all) ++ skipn 200 all = skipn 100 all).
  { change (skipn 200 all) with (skipn (100 + 100) all).
    rewrite <- skipn_skipn. apply firstn_skipn. }
  rewrite <- !rev_app_distr. f_equal.
  rewrite <- app_assoc, E2. apply firstn_skipn.
Qed.

Lemma newest_first_reversed (l : list Z) :
  Sorted Z.gt l -> StronglySorted Z.lt (rev l).
Proof.
  intros Hs. apply Sorted_StronglySorted in Hs; [|intros x y z; lia].
  induction Hs as [|a l Hs IH Hf]; [constructor|].
  cbn. apply StronglySorted_app; [exact IH|repeat constructor|].
  intros x y Hx [<-|[]]. apply in_rev in Hx.
  rewrite Forall_forall in Hf. specialize (Hf x Hx). lia.
Qed.

Lemma emitTorrents_between_fetches ts cur r s done :
  exists tr,
    emitTorrents ts cur (mkEnv (EvResponse r :: s) done)
    = (tr, Ret (last (ids ts) cur), mkEnv (EvResponse r :: s) done) /\
    visible tr = flat_map emitted ts.
Proof.
  destruct (run_emitTorrents ts cur (mkEnv (EvResponse r :: s) done))
    as (tr & e' & Hrun & Hv & _ & Hsame).
  exists tr. split; [|exact Hv].
  rewrite Hrun, Hsame; [reflexivity|]. cbn. congruence.
Qed.

(** C3: when the discovery fetch reports 250 torrents, the page count is
    3, and with an upstream list [all] of 250 torrents, newest first,
    served in pages of 100, the resync calls the fetcher for page 1 with
    limit 1 and then for pages 3, 2, 1 with limit 100, and emits the 250
    torrents oldest first, in strictly increasing ID order, returning the
    ID of the newest. *)
Theorem resync_of_250_fetches_pages_3_2_1 c imdbID all disc p3 p2 p1 rest done :
  Page.TorrentsCount disc = 250 ->
  List.length all = 250%nat ->
  Sorted Z.gt (ids all) ->
  Page.Torrents p3 = paginate all 3 100 ->
  Page.Torrents p2 = paginate all 2 100 ->
  Page.Torrents p1 = paginate all 1 100 ->
  let x := fullStreamResync c imdbID
             (mkEnv (EvResponse (inr disc) :: EvResponse (inr p3)
                       :: EvResponse (inr p2) :: EvResponse (inr p1) :: rest) done) in
  pageCount 250 = 3 /\
  calls (trace_of x)
  = [URLOptions.mk 1 1 imdbID; URLOptions.mk 3 100 imdbID;
     URLOptions.mk 2 100 imdbID; URLOptions.mk 1 100 imdbID] /\
  sent (trace_of x) = map okEvent (rev all) /\
  List.length (sent (trace_of x)) = 250%nat /\
  StronglySorted Z.lt (ids (items (trace_of x))) /\
  outcome_of x = Ret (last (ids (rev all)) 0).
Proof.
  intros Hcount Hlen Hsorted H3 H2 H1. cbv zeta.
  assert (Hpc : pageCount 250 = 3) by (vm_compute; reflexivity).
  unfold fullStreamResync.
  rewrite (bind_Ret _ _ _ _ _ _ (GetTorrents_ready c _ (inr disc) _ done)).
  rewrite Hcount. change (250 =? 0) with false. cbv iota zeta.
  rewrite Hpc. change (Z.to_nat 3) with 3%nat.
  cbn [resyncBackwards].
  change (Z.of_nat 3) with 3. change (Z.of_nat 2) with 2. change (Z.of_nat 1) with 1.
  change MaxEZTVAPILimit with 100.
  rewrite (bind_Ret _ _ _ _ _ _ (GetTorrents_ready c _ (inr p3) _ done)).
  destruct (emitTorrents_between_fetches (rev (Page.Torrents p3)) 0
              (inr p2) (EvResponse (inr p1) :: rest) done) as (tr3 & Hrun3 & Hv3).
  rewrite (bind_Ret _ _ _ _ _ _ Hrun3).
  rewrite (bind_Ret _ _ _ _ _ _ (GetTorrents_ready c _ (inr p2) _ done)).
  destruct (emitTorrents_between_fetches (rev (Page.Torrents p2))
              (last (ids (rev (Page.Torrents p3))) 0)
              (inr p1) rest done) as (tr2 & Hrun2 & Hv2).
  rewrite (bind_Ret _ _ _ _ _ _ Hrun2).
  rewrite (bind_Ret _ _ _ _ _ _ (GetTorrents_ready c _ (inr p1) _ done)).
  destruct (run_emitTorrents (rev (Page.Torrents p1))
              (last (ids (rev (Page.Torrents p2)))
                    (last (ids (rev (Page.Torrents p3))) 0))
              (mkEnv rest done)) as (tr1 & e1 & Hrun1 & Hv1 & _ & _).
  rewrite (bind_Ret _ _ _ _ _ _ Hrun1).
  cbn [ret]. run_norm. rewrite app_nil_r.
  assert (Hsent : forall tr ts, visible tr = flat_map emitted ts ->
                                sent tr = map okEvent ts /\ calls tr = [] /\
                                items tr = ts).
  { intros tr ts Hv. rewrite sent_visible, calls_visible, items_visible, Hv.
    rewrite sent_emitted, calls_emitted, items_emitted. auto. }
  destruct (Hsent _ _ Hv3) as (Hs3 & Hc3 & Hi3).
  destruct (Hsent _ _ Hv2) as (Hs2 & Hc2 & Hi2).
  destruct (Hsent _ _ Hv1) as (Hs1 & Hc1 & Hi1).
  assert (Hall : rev (Page.Torrents p3) ++ rev (Page.Torrents p2)
                   ++ rev (Page.Torrents p1) = rev all)
    by (rewrite H3, H2, H1; now apply three_pages_of_250).
  assert (Hitems_eq :
            items ([ActRequest (Client.client c) (URLOptions.mk 1 1 imdbID)
                      (buildRequest c (URLOptions.mk 1 1 imdbID));
                    ActResponse (URLOptions.mk 1 1 imdbID) (inr disc)] ++
                   [ActRequest (Client.client c) (URLOptions.mk 3 100 imdbID)
                      (buildRequest c (URLOptions.mk 3 100 imdbID));
                    ActResponse (URLOptions.mk 3 100 imdbID) (inr p3)] ++
                   tr3 ++
                   [ActRequest (Client.client c) (URLOptions.mk 2 100 imdbID)
                      (buildRequest c (URLOptions.mk 2 100 imdbID));
                    ActResponse (URLOptions.mk 2 100 imdbID) (inr p2)] ++
                   tr2 ++
                   [ActRequest (Client.client c) (URLOptions.mk 1 100 imdbID)
                      (buildRequest c (URLOptions.mk 1 100 imdbID));
                    ActResponse (URLOptions.mk 1 100 imdbID) (inr p1)] ++ tr1)
            = rev all).
  { rewrite !items_app, Hi3, Hi2, Hi1. cbn. exact Hall. }
  split; [exact Hpc|]. split; [|split; [|split; [|split]]].
  - rewrite !calls_app, Hc3, Hc2, Hc1. reflexivity.
  - rewrite !sent_app, Hs3, Hs2, Hs1. cbn.
    rewrite <- !map_app, Hall. reflexivity.
  - rewrite !sent_app, Hs3, Hs2, Hs1. cbn.
    rewrite <- !map_app, Hall, length_map, length_rev. exact Hlen.
  - rewrite Hitems_eq. unfold ids. rewrite map_rev.
    now apply newest_first_reversed.
  - rewrite <- Hall, !ids_app, !last_app_default. reflexivity.
Qed.

Lemma resync_of_250_witness :
  Sorted Z.gt (ids upstream250) /\
  calls (trace_of (fullStreamResync (New []) "1" resyncOf250))
  = [URLOptions.mk 1 1 "1"; URLOptions.mk 3 100 "1";
     URLOptions.mk 2 100 "1"; URLOptions.mk 1 100 "1"] /\
  List.length (sent (trace_of (fullStreamResync (New []) "1" resyncOf250)))
  = 250%nat.
Proof.
  assert (Hs : Sorted Z.gt (ids upstream250)).
  { vm_compute. repeat constructor. }
  pose proof (resync_of_250_fetches_pages_3_2_1 (New []) "1" upstream250
                (Page.mk "1" 250 1 1 (paginate upstream250 1 1))
                (served 3) (served 2) (served 1) [] false
                eq_refl eq_refl Hs eq_refl eq_refl eq_refl)
    as (_ & Hcalls & _ & Hlen & _).
  split; [exact Hs|]. split; [exact Hcalls|exact Hlen].
Defined.

(** ** C4: cancellation *)






(** * Further properties of the package *)

(** ** Options and New *)

Lemma last_cons {A} (x : A) (l : list A) (d : A) : last (x :: l) d = last l x.
Proof.
  destruct l as [|y l]; [reflexivity|].
  change (last (x :: y :: l) d) with (last (y :: l) d).
  apply last_cons_default.
Qed.

Lemma fold_options (l : list OptionSpec) : forall c0,
  fold_left (fun client op => op client) (map optionOf l) c0
  = Client.mk (last (httpClientsOf l) (Client.client c0))
              (last (baseURLsOf l) (Client.baseURL c0)).
Proof.
  induction l as [|s l IH]; intros c0.
  - destruct c0. reflexivity.
  - cbn [map fold_left]. rewrite IH.
    destruct s as [h|u]; cbn [optionOf httpClientsOf baseURLsOf flat_map app];
      fold (httpClientsOf l); fold (baseURLsOf l).
    + rewrite last_cons. reflexivity.
    + rewrite last_cons. reflexivity.
Qed.

(** X1: [New] applies its options from left to right: the client it
    returns holds the HTTP client of the last [WithHTTPClient] given
    ([http.DefaultClient] if there is none) and the URL of the last
    [WithBaseURL] given ([EZTVBaseURL] if there is none); [GetTorrents]
    hands its request to that HTTP client. *)
Theorem New_last_option_wins (l : list OptionSpec) o e :
  New (map optionOf l)
  = Client.mk (last (httpClientsOf l) DefaultClient)
              (last (baseURLsOf l) EZTVBaseURL)
  /\ exists k tail,
      trace_of (GetTorrents (New (map optionOf l)) o e)
      = ActRequest (last (httpClientsOf l) DefaultClient) o
          (buildRequest (New (map optionOf l)) o)
          :: repeat ActCancelled k ++ tail.
Proof.
  assert (HN : New (map optionOf l)
               = Client.mk (last (httpClientsOf l) DefaultClient)
                           (last (baseURLsOf l) EZTVBaseURL))
    by (unfold New; apply fold_options).
  split; [exact HN|].
  destruct (run_GetTorrents (New (map optionOf l)) o e)
    as (k & e1 & _ & [(r & s & _ & Hget)|(_ & Hget)]); rewrite Hget; run_norm.
  - exists k, [ActResponse o r]. rewrite HN at 1. reflexivity.
  - exists k, []. rewrite app_nil_r. rewrite HN at 1. reflexivity.
Qed.

(** ** The request of GetTorrents *)

Lemma substring_whole (s : string) : substring 0 (String.length s) s = s.
Proof. induction s as [|a s IH]; cbn; [reflexivity|now rewrite IH]. Qed.

Lemma TrimPrefix_tt (s : string) : TrimPrefix ("tt" ++ s) "tt" = s.
Proof.
  unfold TrimPrefix. cbn.
  assert (Hp : String.prefix "" s = true) by (destruct s; reflexivity).
  rewrite Hp, Nat.sub_0_r. apply substring_whole.
Qed.

Lemma TrimPrefix_without (s : string) :
  String.prefix "tt" s = false -> TrimPrefix s "tt" = s.
Proof. intros H. unfold TrimPrefix. now rewrite H. Qed.

Lemma prefix_cons a s1 b s2 :
  String.prefix (String a s1) (String b s2)
  = if Ascii.ascii_dec a b then String.prefix s1 s2 else false.
Proof. reflexivity. Qed.

Lemma prefix_tt_inv (s : string) :
  String.prefix "tt" s = true -> exists s', s = ("tt" ++ s')%string.
Proof.
  destruct s as [|a [|b s']].
  - intros H; discriminate H.
  - rewrite prefix_cons.
    destruct (Ascii.ascii_dec "t" a); intros H; discriminate H.
  - rewrite !prefix_cons.
    destruct (Ascii.ascii_dec "t" a) as [<-|]; [|intros H; discriminate H].
    destruct (Ascii.ascii_dec "t" b) as [<-|]; [|intros H; discriminate H].
    intros _. now exists s'.
Qed.

Lemma TrimPrefix_empty (s : string) :
  TrimPrefix s "tt" = "" <-> s = "" \/ s = "tt".
Proof.
  split.
  - destruct (String.prefix "tt" s) eqn:Hp.
    + destruct (prefix_tt_inv s Hp) as (s' & ->).
      rewrite TrimPrefix_tt. intros ->. now right.
    + rewrite (TrimPrefix_without s Hp). now left.
  - intros [-> | ->]; reflexivity.
Qed.

Lemma Itoa_inj (n m : Z) : Itoa n = Itoa m -> n = m.
Proof.
  unfold Itoa. intros H. apply to_int_inj.
  assert (Hnil : forall z, Z.to_int z <> Decimal.Pos Decimal.Nil /\
                           Z.to_int z <> Decimal.Neg Decimal.Nil).
  { intros [|p|p]; cbn; split; try discriminate;
      intros [= Hp]; now apply Unsigned.to_uint_nonnil in Hp. }
  destruct (Hnil n) as (Hn1 & Hn2). destruct (Hnil m) as (Hm1 & Hm2).
  pose proof (NilZero.isi _ Hn1 Hn2) as E1.
  pose proof (NilZero.isi _ Hm1 Hm2) as E2.
  rewrite H in E1. congruence.
Qed.

Lemma query_of_buildRequest c o :
  let q := Request.Query (buildRequest c o) in
  (forall k v,
      In (k, v) q ->
      (k = "page" /\ URLOptions.Page o <> 0 /\ v = Itoa (URLOptions.Page o)) \/
      (k = "limit" /\ URLOptions.Limit o <> 0 /\ v = Itoa (URLOptions.Limit o)) \/
      (k = "imdb_id" /\ URLOptions.ImdbID o <> ""
       /\ v = TrimPrefix (URLOptions.ImdbID o) "tt")) /\
  (URLOptions.Page o <> 0 -> In ("page", Itoa (URLOptions.Page o)) q) /\
  (URLOptions.Limit o <> 0 -> In ("limit", Itoa (URLOptions.Limit o)) q) /\
  (URLOptions.ImdbID o <> "" ->
   In ("imdb_id", TrimPrefix (URLOptions.ImdbID o) "tt") q).
Proof.
  cbv zeta. unfold buildRequest, addPage, addLimit, addImdbID.
  cbn [Request.Query].
  destruct (Z.eqb_spec (URLOptions.Page o) 0) as [Hp|Hp];
    destruct (Z.eqb_spec (URLOptions.Limit o) 0) as [Hl|Hl];
    destruct (String.eqb_spec (URLOptions.ImdbID o) "") as [Hi|Hi];
    cbn [app];
    (split; [intros k v Hin; cbn in Hin;
             repeat (destruct Hin as [Hin|Hin]; [injection Hin as <- <-; tauto|]);
             destruct Hin|]);
    cbn; tauto.
Qed.

(** X2: the request of [GetTorrents] is a GET whose query holds at most
    the keys page, limit and imdb_id, each at most once: page and limit
    are sent, in decimal, exactly when they are not zero, and imdb_id,
    without one leading tt, exactly when [ImdbID] is not empty. *)
Theorem GetTorrents_query c o :
  let q := Request.Query (buildRequest c o) in
  Request.Method (buildRequest c o) = "GET" /\
  NoDup (queryKeys q) /\
  (forall k v,
      In (k, v) q ->
      (k = "page" /\ URLOptions.Page o <> 0 /\ v = Itoa (URLOptions.Page o)) \/
      (k = "limit" /\ URLOptions.Limit o <> 0 /\ v = Itoa (URLOptions.Limit o)) \/
      (k = "imdb_id" /\ URLOptions.ImdbID o <> ""
       /\ v = TrimPrefix (URLOptions.ImdbID o) "tt")) /\
  (URLOptions.Page o <> 0 -> In ("page", Itoa (URLOptions.Page o)) q) /\
  (URLOptions.Limit o <> 0 -> In ("limit", Itoa (URLOptions.Limit o)) q) /\
  (URLOptions.ImdbID o <> "" ->
   In ("imdb_id", TrimPrefix (URLOptions.ImdbID o) "tt") q).
Proof.
  cbv zeta. split; [reflexivity|].
  split; [|exact (query_of_buildRequest c o)].
  unfold buildRequest, addPage, addLimit, addImdbID. cbn [Request.Query].
  destruct (URLOptions.Page o =? 0);
    destruct (URLOptions.Limit o =? 0);
    destruct (String.eqb (URLOptions.ImdbID o) "");
    cbn [app queryKeys map fst];
    repeat constructor; cbn; intuition discriminate.
Qed.

Lemma GetTorrents_query_witness :
  In ("page", "3") (Request.Query (buildRequest (New []) (URLOptions.mk 3 0 ""))).
Proof.
  apply (proj1 (proj2 (proj2 (proj2 (GetTorrents_query (New [])
                                       (URLOptions.mk 3 0 "")))))).
  discriminate.
Defined.

(** X3: the request tells which page and which limit were asked for, and
    which show up to one leading tt: two calls of [GetTorrents] that build
    the same request have the same [Page], the same [Limit], and [ImdbID]s
    that are both empty or equal once trimmed. *)
Theorem buildRequest_determines_options c c' o o' :
  buildRequest c o = buildRequest c' o' ->
  URLOptions.Page o = URLOptions.Page o' /\
  URLOptions.Limit o = URLOptions.Limit o' /\
  (URLOptions.ImdbID o = "" <-> URLOptions.ImdbID o' = "") /\
  TrimPrefix (URLOptions.ImdbID o) "tt" = TrimPrefix (URLOptions.ImdbID o') "tt".
Proof.
  intros Heq.
  destruct (query_of_buildRequest c o) as (Hq & Hp & Hl & Hi).
  destruct (query_of_buildRequest c' o') as (Hq' & Hp' & Hl' & Hi').
  cbv zeta in *. rewrite Heq in *.
  assert (HP : URLOptions.Page o = URLOptions.Page o').
  { destruct (Z.eq_dec (URLOptions.Page o) 0) as [H0|H0];
      destruct (Z.eq_dec (URLOptions.Page o') 0) as [H0'|H0']; [congruence| | |].
    - destruct (Hq _ _ (Hp' H0')) as [(_ & H & _)|[(H & _)|(H & _)]];
        [tauto|discriminate H|discriminate H].
    - destruct (Hq' _ _ (Hp H0)) as [(_ & H & _)|[(H & _)|(H & _)]];
        [tauto|discriminate H|discriminate H].
    - destruct (Hq' _ _ (Hp H0)) as [(_ & _ & H)|[(H & _)|(H & _)]];
        [now apply Itoa_inj|discriminate H|discriminate H]. }
  assert (HL : URLOptions.Limit o = URLOptions.Limit o').
  { destruct (Z.eq_dec (URLOptions.Limit o) 0) as [H0|H0];
      destruct (Z.eq_dec (URLOptions.Limit o') 0) as [H0'|H0']; [congruence| | |].
    - destruct (Hq _ _ (Hl' H0')) as [(H & _)|[(_ & H & _)|(H & _)]];
        [discriminate H|tauto|discriminate H].
    - destruct (Hq' _ _ (Hl H0)) as [(H & _)|[(_ & H & _)|(H & _)]];
        [discriminate H|tauto|discriminate H].
    - destruct (Hq' _ _ (Hl H0)) as [(H & _)|[(_ & _ & H)|(H & _)]];
        [discriminate H|now apply Itoa_inj|discriminate H]. }
  split; [exact HP|split; [exact HL|]].
  destruct (String.eqb_spec (URLOptions.ImdbID o) "") as [H0|H0];
    destruct (String.eqb_spec (URLOptions.ImdbID o') "") as [H0'|H0'].
  - rewrite H0, H0'. tauto.
  - exfalso. destruct (Hq _ _ (Hi' H0')) as [(H & _)|[(H & _)|(_ & H & _)]];
      [discriminate H|discriminate H|tauto].
  - exfalso. destruct (Hq' _ _ (Hi H0)) as [(H & _)|[(H & _)|(_ & H & _)]];
      [discriminate H|discriminate H|tauto].
  - split; [tauto|].
    destruct (Hq' _ _ (Hi H0)) as [(H & _)|[(H & _)|(_ & _ & H)]];
      [discriminate H|discriminate H|exact H].
Qed.

Lemma buildRequest_determines_options_witness :
  URLOptions.Page (URLOptions.mk 2 100 "tt7908628")
  = URLOptions.Page (URLOptions.mk 2 100 "7908628")
  /\ TrimPrefix "tt7908628" "tt" = TrimPrefix "7908628" "tt".
Proof.
  pose proof (buildRequest_determines_options (New []) (New [])
                (URLOptions.mk 2 100 "tt7908628") (URLOptions.mk 2 100 "7908628")
                eq_refl) as (HP & _ & _ & HT).
  split; [exact HP|exact HT].
Defined.

(** X4: the tt prefix of a show's ID is optional: for an ID [s] that does
    not itself start with tt, a stream opened for tt[s] runs exactly as the
    stream opened for [s], and, when [s] is not empty, [GetTorrents] builds
    the same request for both. *)
Theorem tt_prefix_is_optional c p l s cursor interval e :
  String.prefix "tt" s = false ->
  TorrentStream c (StreamOptions.mk ("tt" ++ s) cursor interval) e
  = TorrentStream c (StreamOptions.mk s cursor interval) e
  /\ (s <> "" ->
      buildRequest c (URLOptions.mk p l ("tt" ++ s))
      = buildRequest c (URLOptions.mk p l s)).
Proof.
  intros Hp. split.
  - unfold TorrentStream, deferClose, streamBody.
    cbn [StreamOptions.ImdbID StreamOptions.LastTorrentID
           StreamOptions.RecheckInterval].
    rewrite TrimPrefix_tt, (TrimPrefix_without s Hp). reflexivity.
  - intros Hs. unfold buildRequest, addImdbID. cbn [URLOptions.ImdbID].
    rewrite TrimPrefix_tt, (TrimPrefix_without s Hp).
    apply String.eqb_neq in Hs. rewrite Hs.
    destruct s as [|a s']; [discriminate|]. reflexivity.
Qed.

Lemma tt_prefix_is_optional_witness :
  buildRequest (New []) (URLOptions.mk 1 10 "tt0944947")
  = buildRequest (New []) (URLOptions.mk 1 10 "0944947").
Proof.
  apply (proj2 (tt_prefix_is_optional (New []) 1 10 "0944947" 0 0
                  (mkEnv [] false) eq_refl)).
  discriminate.
Defined.

(** ** Streams with and without a key *)

Lemma bind_trace_prefix {A B} (m : M A) (f : A -> M B) e :
  exists rest, trace_of (bind m f e) = trace_of (m e) ++ rest.
Proof.
  destruct (m e) as [[tr [a| |]] e1] eqn:Hm.
  - rewrite (bind_Ret _ _ _ _ _ _ Hm). eexists. reflexivity.
  - rewrite (bind_Blocked _ _ _ _ _ Hm). exists []. cbn. now rewrite app_nil_r.
  - rewrite (bind_OutOfFuel _ _ _ _ _ Hm). exists []. cbn. now rewrite app_nil_r.
Qed.

Lemma streamBody_starts_with_resync fuel c o e :
  streamKey o <> "" ->
  StreamOptions.LastTorrentID o = 0 ->
  exists rest,
    trace_of (streamBody fuel c o e)
    = trace_of (fullStreamResync c (streamKey o) e) ++ rest.
Proof.
  intros Hkey Hz. unfold streamBody. fold (streamKey o).
  apply String.eqb_neq in Hkey. rewrite Hkey, Hz. cbv zeta. cbn [Z.eqb].
  destruct (bind_trace_prefix
              (v <- fullStreamResync c (streamKey o) ;; setCursor v ;; ret v)
              (fun lastTorrentID =>
                 pollLoop fuel c (streamKey o)
                          (if StreamOptions.RecheckInterval o =? 0
                           then StreamRecheckInterval
                           else StreamOptions.RecheckInterval o) lastTorrentID) e)
    as (rest1 & H1).
  destruct (bind_trace_prefix (fullStreamResync c (streamKey o))
              (fun v => setCursor v ;; ret v) e) as (rest2 & H2).
  exists (rest2 ++ rest1). rewrite H1, H2, app_assoc. reflexivity.
Qed.

(** X5: a stream has no key exactly when [ImdbID] is empty or is just the
    prefix tt.  Then it sends the one error [ErrMissingImdbID] and closes
    without a fetch or a timer; with any other [ImdbID] it starts work: it
    calls the page fetcher or starts a timer. *)
Theorem stream_key_is_missing_iff_empty_or_tt c o e :
  let tr := trace_of (TorrentStream c o e) in
  ((StreamOptions.ImdbID o = "" \/ StreamOptions.ImdbID o = "tt") ->
   onlyMissingKeyError tr /\
   outcome_of (TorrentStream c o e) = Ret tt /\
   timers tr = [])
  /\ (~ (StreamOptions.ImdbID o = "" \/ StreamOptions.ImdbID o = "tt") ->
      calls tr <> [] \/ timers tr <> []).
Proof.
  cbv zeta. split.
  - intros Hk. apply TrimPrefix_empty in Hk.
    destruct (TorrentStream_shape c o e) as [k _ Htr Ho|? ? ? ? ? Hkey].
    + rewrite Htr, Ho.
      destruct (missing_key_projections k) as (Hs & _ & _ & Ht & Hc & _).
      split; [|split; [reflexivity|exact Ht]].
      split; [exact Hs|split; [|exact Hc]].
      exists (ActGo :: repeat ActCancelled k ++ [ActSend (errEvent ErrMissingImdbID)]).
      cbn. now rewrite <- app_assoc.
    + now elim Hkey.
  - intros Hk.
    assert (Hkey : streamKey o <> "")
      by (intros H; apply Hk; now apply TrimPrefix_empty).
    destruct (TorrentStream_trace c o e) as (closing & Hc & ->).
    change (ActGo :: ?a ++ closing) with ([ActGo] ++ a ++ closing).
    destruct (Z.eq_dec (StreamOptions.LastTorrentID o) 0) as [Hz|Hnz].
    + left.
      destruct (streamBody_starts_with_resync (S (List.length (script e))) c o e
                  Hkey Hz) as (rest & ->).
      destruct (fullStreamResync_first_call c (streamKey o) e) as (rest' & Hf).
      rewrite !calls_app, Hf. cbn. discriminate.
    + right.
      rewrite (streamBody_resumed _ _ _ _ Hkey Hnz).
      destruct (pollLoop_first_timer (List.length (script e)) c (streamKey o)
                  (streamInterval o) (StreamOptions.LastTorrentID o) e)
        as (rest & Hrest).
      rewrite !timers_app, Hrest. cbn. discriminate.
Qed.

Lemma stream_key_is_missing_witness :
  sent (trace_of (TorrentStream (New []) (StreamOptions.mk "tt" 7 0)
                    (mkEnv [EvTimer] false)))
  = [errEvent ErrMissingImdbID].
Proof.
  exact (proj1 (proj1 (proj1 (stream_key_is_missing_iff_empty_or_tt
                                (New []) (StreamOptions.mk "tt" 7 0)
                                (mkEnv [EvTimer] false))
                         (or_intror eq_refl)))).
Defined.

(** ** The number of pages *)

Lemma binary_round_aux_sign m e l :
  notPositive (binary_round_aux 53 1024 true m e l) = true.
Proof.
  unfold binary_round_aux.
  destruct (shr_fexp 53 1024 m e l) as [mrs' e'].
  destruct (shr_fexp 53 1024 _ e' loc_Exact) as [mrs'' e''].
  destruct (shr_m mrs'') as [|p|p]; try reflexivity.
  destruct (e'' <=? 1024 - 53); reflexivity.
Qed.

Lemma binary_round_sign m e :
  notPositive (binary_round 53 1024 true m e) = true.
Proof.
  unfold binary_round.
  destruct (shl_align m e _) as [mz ez]. apply binary_round_aux_sign.
Qed.

Lemma float64_of_int_nonpositive n :
  n <= 0 -> notPositive (float64_of_int n) = true.
Proof.
  intros Hn. unfold float64_of_int, binary_normalize.
  destruct n as [|p|p]; [reflexivity|lia|apply binary_round_sign].
Qed.

Lemma float64_div_by_limit_sign x :
  notPositive x = true ->
  notPositive (float64_div x (float64_of_int MaxEZTVAPILimit)) = true.
Proof.
  intros Hx.
  assert (H100 : exists m e, float64_of_int MaxEZTVAPILimit = S754_finite false m e)
    by (vm_compute; eauto).
  destruct H100 as (m100 & e100 & ->).
  unfold float64_div, SFdiv.
  destruct x as [s|s| |s m e]; try reflexivity.
  cbn in Hx. subst s.
  destruct (SFdiv_core_binary 53 1024 (Z.pos m) e (Z.pos m100) e100) as [[mz ez] lz].
  cbn [xorb]. apply binary_round_aux_sign.
Qed.

Lemma int_of_notPositive x :
  notPositive x = true -> int_of_float64 x <= 0.
Proof.
  destruct x as [s|s| |s m e]; cbn; try lia.
  intros ->. cbn [cond_Zopp].
  destruct (0 <=? e) eqn:He.
  - apply Z.leb_le in He.
    assert (0 < 2 ^ e) by (apply Z.pow_pos_nonneg; lia). nia.
  - apply Z.leb_gt in He.
    assert (0 < 2 ^ (- e)) by (apply Z.pow_pos_nonneg; lia).
    change (Z.opp (Z.pos m)) with (- Z.pos m).
    rewrite Z.quot_opp_l by lia.
    assert (0 <= Z.pos m ÷ 2 ^ (- e)) by (apply Z.quot_pos; lia). lia.
Qed.

Lemma math_Ceil_sign x :
  notPositive x = true -> notPositive (math_Ceil x) = true.
Proof.
  destruct x as [s|s| |s m e]; cbn [math_Ceil]; try (intros; assumption).
  cbn [notPositive]. intros ->. cbn [cond_Zopp].
  destruct (0 <=? e) eqn:He; [reflexivity|].
  apply Z.leb_gt in He.
  change (- - Z.pos m) with (Z.pos m).
  destruct (- (Z.pos m / 2 ^ (- e)) =? 0) eqn:Hc; [reflexivity|].
  apply Z.eqb_neq in Hc.
  assert (Hpow : 0 < 2 ^ (- e)) by (apply Z.pow_pos_nonneg; lia).
  assert (Hq : 0 <= Z.pos m / 2 ^ (- e)) by (apply Z.div_pos; lia).
  unfold binary_normalize.
  destruct (- (Z.pos m / 2 ^ (- e))) as [|p|p] eqn:Hv; [reflexivity|lia|].
  apply binary_round_sign.
Qed.

Lemma pageCount_nonpositive n : n <= 0 -> pageCount n <= 0.
Proof.
  intros Hn. unfold pageCount.
  apply int_of_notPositive, math_Ceil_sign, float64_div_by_limit_sign,
    float64_of_int_nonpositive. exact Hn.
Qed.

Lemma pageCountExactFrom_spec fuel : forall n0 acc,
  pageCountExactFrom fuel n0 acc = true ->
  acc = true /\
  forall n, n0 <= n < n0 + Z.of_nat fuel -> pageCount n = (n + 99) / 100.
Proof.
  induction fuel as [|fuel IH]; intros n0 acc H.
  - cbn in H. split; [exact H|]. intros n Hn. lia.
  - cbn [pageCountExactFrom] in H. apply IH in H. destruct H as (Hacc & Hall).
    apply andb_true_iff in Hacc. destruct Hacc as (Ha & Hn0).
    split; [exact Ha|]. intros n Hn.
    destruct (Z.eq_dec n n0) as [->|Hne].
    + now apply Z.eqb_eq.
    + apply Hall. lia.
Qed.

Lemma pageCount_checked : pageCountExactFrom (Z.to_nat 10001) 0 true = true.
Proof. vm_compute. reflexivity. Qed.

(** X6: for every count from 0 to 10000, [pageCount], computed through
    [float64] as the code does, is the exact ceiling of the count divided
    by [MaxEZTVAPILimit]: the rounding of the division never costs or adds
    a page. *)
Theorem pageCount_is_exact_ceiling n :
  0 <= n <= 10000 ->
  pageCount n = (n + 99) / 100 /\
  (pageCount n - 1) * MaxEZTVAPILimit < n <= pageCount n * MaxEZTVAPILimit.
Proof.
  intros Hn.
  destruct (pageCountExactFrom_spec _ _ _ pageCount_checked) as (_ & H).
  assert (E : pageCount n = (n + 99) / 100) by (apply H; rewrite Z2Nat.id; lia).
  split; [exact E|]. rewrite E. unfold MaxEZTVAPILimit.
  pose proof (Z.div_mod (n + 99) 100 ltac:(lia)) as Hd.
  pose proof (Z.mod_pos_bound (n + 99) 100 ltac:(lia)) as Hm.
  lia.
Qed.

Lemma pageCount_is_exact_ceiling_witness :
  pageCount 101 = 2.
Proof.
  apply (proj1 (pageCount_is_exact_ceiling 101 ltac:(lia))).
Defined.

(** ** The fetches of the resync *)

Lemma fetches_visible tr : fetches tr = fetches (visible tr).
Proof. symmetry. apply flat_map_visible. reflexivity. Qed.

Lemma fetches_app a b : fetches (a ++ b) = fetches a ++ fetches b.
Proof. apply flat_map_app. Qed.

Lemma fetches_emitted ts : fetches (flat_map emitted ts) = [].
Proof.
  induction ts as [|t ts IH]; [reflexivity|].
  change (flat_map emitted (t :: ts)) with (emitted t ++ flat_map emitted ts).
  rewrite fetches_app, IH. reflexivity.
Qed.

Lemma pagesDown_S imdbID n :
  pagesDown imdbID (S n) = resyncCall imdbID (S n) :: pagesDown imdbID n.
Proof.
  unfold pagesDown. rewrite seq_S, rev_app_distr. reflexivity.
Qed.

Lemma responses_failed tr o err :
  In (o, inl err) (responses tr) -> ~ Forall succeeded (responses tr).
Proof.
  intros Hin Hall. rewrite Forall_forall in Hall.
  destruct (Hall _ Hin) as (page & Hp). discriminate.
Qed.

Lemma resyncBackwards_fetches c imdbID i : forall cur e,
  let x := resyncBackwards c imdbID i cur e in
  exists k,
    (k <= i)%nat /\
    fetches (trace_of x) = firstn k (map (fetchOf c) (pagesDown imdbID i)) /\
    (Forall succeeded (responses (trace_of x)) ->
     (exists v, outcome_of x = Ret v) -> k = i).
Proof.
  induction i as [|i IH]; intros cur e x; subst x.
  - exists O. cbn. auto.
  - cbn [resyncBackwards]. fold (resyncCall imdbID (S i)).
    rewrite pagesDown_S. cbn [map].
    destruct (run_GetTorrents c (resyncCall imdbID (S i)) e)
      as (k0 & e1 & Hab & [(r & s & Hs & Hget)|(Hn & Hget)]).
    + rewrite (bind_Ret _ _ _ _ _ _ Hget).
      destruct r as [err|page].
      * destruct (run_send (errEvent err) (mkEnv s (ctx_done e1)))
          as (k2 & e2 & Hsend & Hab2).
        rewrite (bind_Ret _ _ _ _ _ _ Hsend). cbn [ret]. run_norm.
        exists 1%nat. split; [lia|split].
        -- rewrite fetches_visible. vis. reflexivity.
        -- intros Hall. exfalso.
           eapply responses_failed; [|exact Hall].
           rewrite responses_visible. vis. left. reflexivity.
      * destruct (run_emitTorrents (rev (Page.Torrents page)) cur
                    (mkEnv s (ctx_done e1)))
          as (tr2 & e2 & Hemit & Hv & _ & _).
        rewrite (bind_Ret _ _ _ _ _ _ Hemit). run_norm.
        destruct (IH (last (ids (rev (Page.Torrents page))) cur) e2)
          as (k & Hk & Hf & Hfull).
        exists (S k). split; [lia|split].
        -- rewrite !fetches_app, Hf.
           rewrite (fetches_visible (ActRequest _ _ _ :: _)), (fetches_visible tr2).
           vis. rewrite Hv, fetches_emitted. reflexivity.
        -- intros Hall Hret. f_equal. apply Hfull; [|exact Hret].
           rewrite !responses_app in Hall.
           apply Forall_app in Hall. destruct Hall as (_ & Hall).
           apply Forall_app in Hall. now destruct Hall.
    + rewrite (bind_Blocked _ _ _ _ _ Hget). run_norm.
      exists 1%nat. split; [lia|split].
      * rewrite fetches_visible. vis. reflexivity.
      * intros _ (v & Hv). discriminate.
Qed.

(** X7: the resync asks for page 1 with limit 1, then for the pages
    [pageCount], [pageCount - 1], ... in this order, each with limit
    [MaxEZTVAPILimit] and through the client's HTTP client; it stops before
    page 1 only when a fetch fails or stays unanswered, and asks for no
    page at all when the discovery fetch fails or reports no torrents. *)
Theorem resync_fetches_pages_downwards c imdbID e :
  let x := fullStreamResync c imdbID e in
  exists n k,
    (k <= n)%nat /\
    fetches (trace_of x)
    = fetchOf c (URLOptions.mk 1 1 imdbID)
        :: firstn k (map (fetchOf c) (pagesDown imdbID n)) /\
    (forall page rest,
        responses (trace_of x) = (URLOptions.mk 1 1 imdbID, inr page) :: rest ->
        n = if Page.TorrentsCount page =? 0 then O
            else Z.to_nat (pageCount (Page.TorrentsCount page))) /\
    (forall err rest,
        responses (trace_of x) = (URLOptions.mk 1 1 imdbID, inl err) :: rest ->
        k = O) /\
    (Forall succeeded (responses (trace_of x)) ->
     (exists v, outcome_of x = Ret v) -> k = n).
Proof.
  cbv zeta. unfold fullStreamResync. fold (pollCall imdbID).
  destruct (run_GetTorrents c (pollCall imdbID) e)
    as (k0 & e1 & Hab & [(r & s & Hs & Hget)|(Hn & Hget)]).
  - rewrite (bind_Ret _ _ _ _ _ _ Hget).
    destruct r as [err|page].
    + destruct (run_send (errEvent err) (mkEnv s (ctx_done e1)))
        as (k2 & e2 & Hsend & Hab2).
      rewrite (bind_Ret _ _ _ _ _ _ Hsend). cbn [ret]. run_norm.
      exists O, O. split; [lia|].
      rewrite fetches_visible, responses_visible. vis.
      split; [reflexivity|]. split; [intros page rest [=]|].
      split; [reflexivity|].
      intros Hall. exfalso. inversion Hall as [|? ? (page & Hp) _]. discriminate.
    + destruct (Page.TorrentsCount page =? 0) eqn:Hc.
      * cbn [ret]. run_norm. rewrite app_nil_r.
        exists O, O. split; [lia|].
        rewrite fetches_visible, responses_visible. vis.
        split; [reflexivity|]. split; [intros page' rest [= <- _]; now rewrite Hc|].
        split; [intros err rest [=]|reflexivity].
      * cbv zeta. run_norm.
        destruct (resyncBackwards_fetches c imdbID
                    (Z.to_nat (pageCount (Page.TorrentsCount page))) 0
                    (mkEnv s (ctx_done e1))) as (k & Hk & Hf & Hfull).
        exists (Z.to_nat (pageCount (Page.TorrentsCount page))), k.
        split; [exact Hk|].
        rewrite fetches_app, responses_app, Hf.
        rewrite (fetches_visible (ActRequest _ _ _ :: _)),
          (responses_visible (ActRequest _ _ _ :: _)). vis.
        split; [reflexivity|]. split; [intros page' rest [= <- _]; now rewrite Hc|].
        split; [intros err rest [=]|].
        intros Hall Hret. apply Hfull; [|exact Hret].
        now inversion Hall.
  - rewrite (bind_Blocked _ _ _ _ _ Hget). run_norm.
    exists O, O. split; [lia|].
    rewrite fetches_visible, responses_visible. vis.
    split; [reflexivity|]. split; [intros page rest [=]|].
    split; [intros err rest [=]|reflexivity].
Qed.

(** X8: when the discovery fetch reports a count that is zero or negative,
    the resync is over after that one fetch: it asks for no page, sends
    nothing, sets no cursor and returns 0. *)
Theorem resync_of_nonpositive_count_is_a_no_op c imdbID e page rest :
  let x := fullStreamResync c imdbID e in
  responses (trace_of x) = (URLOptions.mk 1 1 imdbID, inr page) :: rest ->
  Page.TorrentsCount page <= 0 ->
  rest = [] /\
  calls (trace_of x) = [URLOptions.mk 1 1 imdbID] /\
  sent (trace_of x) = [] /\
  cursors (trace_of x) = [] /\
  outcome_of x = Ret 0.
Proof.
  cbv zeta. unfold fullStreamResync. fold (pollCall imdbID).
  destruct (run_GetTorrents c (pollCall imdbID) e)
    as (k0 & e1 & Hab & [(r & s & Hs & Hget)|(Hn & Hget)]).
  - rewrite (bind_Ret _ _ _ _ _ _ Hget).
    destruct r as [err|page0].
    + destruct (run_send (errEvent err) (mkEnv s (ctx_done e1)))
        as (k2 & e2 & Hsend & Hab2).
      rewrite (bind_Ret _ _ _ _ _ _ Hsend). cbn [ret]. run_norm.
      rewrite responses_visible. vis. intros [=].
    + destruct (Page.TorrentsCount page0 =? 0) eqn:Hc.
      * cbn [ret]. run_norm. rewrite app_nil_r.
        rewrite responses_visible, calls_visible, sent_visible, cursors_visible.
        vis. intros [= <- <-] _. repeat split; reflexivity.
      * cbv zeta. run_norm.
        rewrite responses_app, (responses_visible (ActRequest _ _ _ :: _)).
        vis. intros [= <- Hrest] Hle.
        pose proof (pageCount_nonpositive _ Hle) as Hpc.
        assert (Hz : Z.to_nat (pageCount (Page.TorrentsCount page0)) = O)
          by (destruct (pageCount (Page.TorrentsCount page0)); [reflexivity|lia|reflexivity]).
        rewrite Hz in *. cbn [resyncBackwards] in *. unfold ret in *.
        cbn in Hrest. run_norm. rewrite app_nil_r.
        rewrite calls_visible, sent_visible, cursors_visible. vis.
        repeat split; auto.
  - rewrite (bind_Blocked _ _ _ _ _ Hget). run_norm.
    rewrite responses_visible. vis. intros [=].
Qed.

Lemma resync_of_nonpositive_count_witness :
  outcome_of (fullStreamResync (New []) "1"
                (mkEnv [EvResponse (inr (pageOf (-3) [7]))] false))
  = Ret 0.
Proof.
  refine (proj2 (proj2 (proj2 (proj2
            (resync_of_nonpositive_count_is_a_no_op (New []) "1"
               (mkEnv [EvResponse (inr (pageOf (-3) [7]))] false)
               (pageOf (-3) [7]) [] _ _))))).
  - vm_compute. reflexivity.
  - vm_compute. discriminate.
Defined.

(** ** Replaying a whole history *)

Lemma firstn_add {A} (a b : nat) : forall l : list A,
  firstn (a + b) l = firstn a l ++ firstn b (skipn a l).
Proof.
  induction a as [|a IH]; intros l; [reflexivity|].
  destruct l as [|x l]; cbn [Nat.add firstn skipn app].
  - now rewrite firstn_nil.
  - now rewrite IH.
Qed.

Lemma pages_upwards (all : list Torrent.t) (n : nat) :
  flat_map (fun p => paginate all p 100) (seq 1 n) = firstn (n * 100) all.
Proof.
  induction n as [|n IH]; [reflexivity|].
  rewrite seq_S, flat_map_app, IH. cbn [flat_map]. rewrite app_nil_r.
  unfold paginate. rewrite Nat.add_comm, Nat.add_sub.
  rewrite Nat.mul_succ_l. symmetry. apply firstn_add.
Qed.

Lemma flat_map_rev_rev {A B} (f : A -> list B) (l : list A) :
  flat_map (fun a => rev (f a)) (rev l) = rev (flat_map f l).
Proof.
  induction l as [|a l IH]; [reflexivity|].
  cbn [rev flat_map]. rewrite flat_map_app, IH, rev_app_distr.
  cbn [flat_map]. now rewrite app_nil_r.
Qed.

Lemma pages_cover (all : list Torrent.t) (n : nat) :
  (List.length all <= n * 100)%nat ->
  flat_map (fun p => rev (paginate all p 100)) (rev (seq 1 n)) = rev all.
Proof.
  intros Hlen. rewrite flat_map_rev_rev, pages_upwards.
  now rewrite firstn_all2.
Qed.

Lemma flat_map_map {A B C} (g : A -> B) (f : B -> list C) (l : list A) :
  flat_map f (map g l) = flat_map (fun a => f (g a)) l.
Proof. induction l as [|a l IH]; cbn; [reflexivity|now rewrite IH]. Qed.

Lemma resyncBackwards_replay c imdbID (pages : list Page.t) : forall cur rest done,
  exists tr e',
    resyncBackwards c imdbID (List.length pages) cur
      (mkEnv (map (fun p => EvResponse (inr p)) pages ++ rest) done)
    = (tr,
       Ret (last (ids (flat_map (fun p => rev (Page.Torrents p)) pages)) cur),
       e') /\
    sent tr = map okEvent (flat_map (fun p => rev (Page.Torrents p)) pages) /\
    calls tr = pagesDown imdbID (List.length pages).
Proof.
  induction pages as [|p ps IH]; intros cur rest done.
  - eexists _, _. split; [reflexivity|]. split; reflexivity.
  - cbn [List.length resyncBackwards map app].
    fold (resyncCall imdbID (S (List.length ps))).
    rewrite (bind_Ret _ _ _ _ _ _ (GetTorrents_ready c _ (inr p) _ done)).
    destruct (run_emitTorrents (rev (Page.Torrents p)) cur
                (mkEnv (map (fun p => EvResponse (inr p)) ps ++ rest) done))
      as (tr2 & e2 & Hemit & Hv & _ & Hsame).
    rewrite (bind_Ret _ _ _ _ _ _ Hemit). run_norm.
    assert (Hnext : exists tr3 e3,
               resyncBackwards c imdbID (List.length ps)
                 (last (ids (rev (Page.Torrents p))) cur) e2
               = (tr3,
                  Ret (last (ids (flat_map (fun p => rev (Page.Torrents p)) ps))
                            (last (ids (rev (Page.Torrents p))) cur)),
                  e3) /\
               sent tr3 = map okEvent (flat_map (fun p => rev (Page.Torrents p)) ps) /\
               calls tr3 = pagesDown imdbID (List.length ps)).
    { destruct ps as [|p' ps'].
      - eexists _, _. split; [reflexivity|]. split; reflexivity.
      - rewrite Hsame by (cbn; congruence). apply IH. }
    destruct Hnext as (tr3 & e3 & Hrun3 & Hs3 & Hc3).
    rewrite Hrun3. run_norm.
    eexists _, e3. split; [|split].
    + f_equal. f_equal. f_equal.
      cbn [flat_map]. rewrite ids_app, last_app_default. reflexivity.
    + rewrite !sent_app, Hs3, (sent_visible tr2), Hv, sent_emitted.
      cbn [flat_map]. rewrite map_app. reflexivity.
    + rewrite !calls_app, Hc3, (calls_visible tr2), Hv, calls_emitted.
      rewrite pagesDown_S. reflexivity.
Qed.

Lemma items_of_okEvents tr : forall l,
  sent tr = map okEvent l -> items tr = l /\ errors tr = [].
Proof.
  induction tr as [|a tr IH]; intros l Hs.
  - destruct l; [auto|discriminate].
  - destruct a as [| | |ev| | | | | |]; try (apply IH; exact Hs).
    change (ev :: sent tr = map okEvent l) in Hs.
    destruct l as [|t l]; [discriminate|].
    cbn [map] in Hs. injection Hs as -> Hs.
    destruct (IH l Hs) as (Hi & He).
    change (t :: items tr = t :: l /\ errors tr = []).
    now rewrite Hi, He.
Qed.

(** X9: the resync replays a whole history, oldest first: for an upstream
    list [all] of 1 to 10000 torrents, newest first, that the page fetcher
    serves unchanged in pages of [MaxEZTVAPILimit], the resync fetches the
    pages from the last one down to page 1 and emits every torrent of
    [all] exactly once as an item, in reverse order of the list, with no
    error event, then returns the ID of the newest torrent. *)
Theorem resync_replays_the_whole_history c imdbID all disc
        (answer : nat -> Page.t) rest done :
  0 < Z.of_nat (List.length all) <= 10000 ->
  Page.TorrentsCount disc = Z.of_nat (List.length all) ->
  (forall p, Page.Torrents (answer p) = paginate all p 100) ->
  let n := Z.to_nat (pageCount (Z.of_nat (List.length all))) in
  let x := fullStreamResync c imdbID
             (mkEnv (EvResponse (inr disc)
                       :: map (fun p => EvResponse (inr (answer p))) (rev (seq 1 n))
                       ++ rest) done) in
  items (trace_of x) = rev all /\
  errors (trace_of x) = [] /\
  List.length (sent (trace_of x)) = List.length all /\
  calls (trace_of x) = URLOptions.mk 1 1 imdbID :: pagesDown imdbID n /\
  outcome_of x = Ret (last (ids (rev all)) 0).
Proof.
  intros Hlen Hcount Hans. cbv zeta.
  destruct (pageCountExactFrom_spec _ _ _ pageCount_checked) as (_ & Hexact).
  assert (Hpc : pageCount (Z.of_nat (List.length all))
                = (Z.of_nat (List.length all) + 99) / 100)
    by (apply Hexact; rewrite Z2Nat.id; lia).
  set (n := Z.to_nat (pageCount (Z.of_nat (List.length all)))).
  assert (Hn : Z.of_nat n = (Z.of_nat (List.length all) + 99) / 100).
  { subst n. rewrite Hpc. apply Z2Nat.id.
    apply Z.div_pos; lia. }
  assert (Hcover : (List.length all <= n * 100)%nat).
  { apply Nat2Z.inj_le. rewrite Nat2Z.inj_mul, Hn.
    change (Z.of_nat 100) with 100.
    pose proof (Z.div_mod (Z.of_nat (List.length all) + 99) 100 ltac:(lia)).
    pose proof (Z.mod_pos_bound (Z.of_nat (List.length all) + 99) 100 ltac:(lia)).
    lia. }
  unfold fullStreamResync.
  rewrite (bind_Ret _ _ _ _ _ _ (GetTorrents_ready c _ (inr disc) _ done)).
  rewrite Hcount.
  assert (Hnz : (Z.of_nat (List.length all) =? 0) = false) by (apply Z.eqb_neq; lia).
  rewrite Hnz. cbv zeta. fold n.
  destruct (resyncBackwards_replay c imdbID (map answer (rev (seq 1 n))) 0 rest done)
    as (tr & e' & Hrun & Hsent & Hcalls).
  rewrite length_map, length_rev, length_seq, map_map in Hrun.
  rewrite length_map, length_rev, length_seq in Hcalls.
  assert (Hitems : flat_map (fun p => rev (Page.Torrents p)) (map answer (rev (seq 1 n)))
                   = rev all).
  { rewrite flat_map_map.
    rewrite (flat_map_ext (fun a => rev (Page.Torrents (answer a)))
                          (fun p => rev (paginate all p 100)))
      by (intros a; now rewrite Hans).
    now apply pages_cover. }
  rewrite Hitems in Hrun, Hsent.
  rewrite Hrun. run_norm.
  destruct (items_of_okEvents tr (rev all) Hsent) as (Hi & He).
  split; [|split; [|split; [|split; [|reflexivity]]]].
  - rewrite items_app, Hi. reflexivity.
  - rewrite errors_app, He. reflexivity.
  - rewrite sent_app, Hsent. cbn. now rewrite length_map, length_rev.
  - rewrite calls_app, Hcalls. reflexivity.
Qed.

Lemma resync_replays_witness :
  items (trace_of (fullStreamResync (New []) "1" resyncOf150)) = rev history150
  /\ calls (trace_of (fullStreamResync (New []) "1" resyncOf150))
     = [URLOptions.mk 1 1 "1"; URLOptions.mk 2 100 "1"; URLOptions.mk 1 100 "1"].
Proof.
  pose proof (resync_replays_the_whole_history
                (New []) "1" history150
                (Page.mk "1" 150 1 1 (paginate history150 1 1))
                served150 [] false)
    as H.
  destruct H as (Hi & _ & _ & Hc & _).
  - vm_compute. split; [reflexivity|discriminate].
  - reflexivity.
  - intros p. reflexivity.
  - split; [exact Hi|exact Hc].
Defined.

(** ** One fetch for every tick of the poll loop *)

Lemma ticks_visible tr : ticks tr = ticks (visible tr).
Proof. unfold ticks. f_equal. symmetry. apply flat_map_visible. reflexivity. Qed.

Lemma ticks_app a b : ticks (a ++ b) = (ticks a + ticks b)%nat.
Proof. unfold ticks. now rewrite flat_map_app, length_app. Qed.

Lemma failures_app a b : failures (a ++ b) = failures a ++ failures b.
Proof. apply flat_map_app. Qed.

Lemma newestOf_app a b : newestOf (a ++ b) = newestOf a ++ newestOf b.
Proof. apply flat_map_app. Qed.

Lemma Tick_more c imdbID d cur tr0 cur' :
  Tick c imdbID d cur tr0 cur' ->
  fetches tr0 = [fetchOf c (pollCall imdbID)] /\
  ticks tr0 = 1%nat /\
  errors tr0 = failures (responses tr0) /\
  Forall wellFormed (sent tr0) /\
  (items tr0 = [] \/
   exists t, items tr0 = [t] /\ newestOf (responses tr0) = [t]).
Proof.
  intros HT.
  rewrite fetches_visible, ticks_visible, errors_visible, responses_visible,
    sent_visible, items_visible.
  destruct HT as [err tr0 Hv|page tr0 Hv Hp|page t0 ts tr0 Hv Hp Hlt];
    rewrite Hv; cbn.
  - repeat split; auto. constructor; [|constructor]. right. now exists err.
  - repeat split; auto.
  - rewrite Hp. cbn. repeat split; auto.
    + constructor; [|constructor]. left. now exists t0.
    + right. now exists t0.
Qed.

(** X10: the poll loop calls the page fetcher once for every tick of its
    timer, always for page 1 with limit 1 and through the client's HTTP
    client, and never otherwise; a tick emits at most one item, and an
    emitted item is always the first torrent of a page that was fetched:
    the other torrents of a page are never emitted. *)
Theorem poll_loop_fetches_once_per_tick fuel c imdbID d : forall cur e,
  let tr := trace_of (pollLoop fuel c imdbID d cur e) in
  fetches tr = repeat (fetchOf c (URLOptions.mk 1 1 imdbID)) (ticks tr) /\
  (ticks tr <= List.length (timers tr))%nat /\
  (List.length (items tr) <= ticks tr)%nat /\
  Forall (fun t => In t (newestOf (responses tr))) (items tr).
Proof.
  fold (pollCall imdbID).
  induction fuel as [|fuel IH]; intros cur e tr; subst tr.
  - cbn. repeat split; auto.
  - destruct (pollLoop_step fuel c imdbID d cur e)
      as [(k & e1 & _ & _ & Hx)|[(tr0 & e1 & Hx & Hv)|(tr0 & cur' & e1 & HT & _ & Hx)]];
      rewrite Hx; run_norm.
    + rewrite fetches_visible, ticks_visible, timers_visible, items_visible.
      vis. repeat split; auto.
    + rewrite fetches_visible, ticks_visible, timers_visible, items_visible.
      destruct Hv as [Hv|Hv]; rewrite Hv; cbn; repeat split; auto.
    + destruct (Tick_more _ _ _ _ _ _ HT) as (Hf & Ht & _ & _ & Hit).
      destruct (Tick_facts _ _ _ _ _ _ HT) as (Htm & _).
      destruct (IH cur' e1) as (IHf & IHt & IHl & IHn).
      rewrite fetches_app, ticks_app, timers_app, items_app, responses_app,
        newestOf_app, Hf, Ht, Htm, IHf, !length_app.
      split; [reflexivity|]. split; [cbn; lia|].
      destruct Hit as [->|(t & -> & ->)]; cbn [List.length app].
      * split; [lia|].
        eapply Forall_impl; [|exact IHn]. cbv beta. intros t Hin.
        apply in_or_app. now right.
      * split; [lia|].
        constructor; [now left|].
        eapply Forall_impl; [|exact IHn]. cbv beta. intros t' Hin.
        now right.
Qed.

(** ** The parts of a stream *)

Lemma stream_parts c o e :
  streamKey o <> "" ->
  exists fuel cur1 e1,
  forall (B : Type) (f : Action -> list B),
    f ActGo = [] -> f ActClose = [] -> (forall v, f (ActSetCursor v) = []) ->
    flat_map f (trace_of (TorrentStream c o e))
    = (if StreamOptions.LastTorrentID o =? 0
       then flat_map f (trace_of (fullStreamResync c (streamKey o) e))
       else [])
        ++ flat_map f (trace_of (pollLoop fuel c (streamKey o) (streamInterval o)
                                          cur1 e1)).
Proof.
  intros Hkey.
  destruct (TorrentStream_trace c o e) as (closing & Hc & Htr).
  set (fuel0 := S (List.length (script e))) in *.
  assert (Hbody : exists fuel cur1 e1 extra,
             (extra = [] \/ exists v, extra = [ActSetCursor v]) /\
             trace_of (streamBody fuel0 c o e)
             = (if StreamOptions.LastTorrentID o =? 0
                then trace_of (fullStreamResync c (streamKey o) e) ++ extra
                else [])
                 ++ trace_of (pollLoop fuel c (streamKey o) (streamInterval o)
                                       cur1 e1)).
  { destruct (Z.eqb_spec (StreamOptions.LastTorrentID o) 0) as [Hz|Hnz].
    - unfold streamBody. fold (streamKey o). fold (streamInterval o).
      pose proof Hkey as Hk. apply String.eqb_neq in Hk. rewrite Hk, Hz.
      cbv zeta. cbn [Z.eqb].
      destruct (fullStreamResync c (streamKey o) e) as [[tr [v| |]] e1] eqn:Hx.
      + exists fuel0, v, e1, [ActSetCursor v]. split; [right; now exists v|].
        rewrite (bind_Ret _ _ e (tr ++ [ActSetCursor v]) v e1).
        * reflexivity.
        * rewrite (bind_Ret _ _ _ _ _ _ Hx).
          rewrite (bind_Ret _ _ e1 [ActSetCursor v] tt e1 eq_refl).
          reflexivity.
      + exists O, 0, e1, []. split; [now left|].
        rewrite (bind_Blocked _ _ e tr e1).
        * cbn. now rewrite !app_nil_r.
        * rewrite (bind_Blocked _ _ _ _ _ Hx). reflexivity.
      + exists O, 0, e1, []. split; [now left|].
        rewrite (bind_OutOfFuel _ _ e tr e1).
        * cbn. now rewrite !app_nil_r.
        * rewrite (bind_OutOfFuel _ _ _ _ _ Hx). reflexivity.
    - exists fuel0, (StreamOptions.LastTorrentID o), e, []. split; [now left|].
      rewrite (streamBody_resumed _ _ _ _ Hkey Hnz). reflexivity. }
  destruct Hbody as (fuel & cur1 & e1 & extra & Hextra & Hb).
  exists fuel, cur1, e1. intros B f Hgo Hclose Hset.
  rewrite Htr, Hb.
  change (ActGo :: ?a ++ closing) with ([ActGo] ++ a ++ closing).
  rewrite !flat_map_app. cbn [flat_map]. rewrite Hgo, app_nil_r. cbn [app].
  assert (Hcl : flat_map f closing = [])
    by (destruct Hc as [-> | ->]; cbn; rewrite ?Hclose; reflexivity).
  rewrite Hcl, app_nil_r.
  destruct (StreamOptions.LastTorrentID o =? 0); [|reflexivity].
  rewrite flat_map_app.
  assert (Hex : flat_map f extra = [])
    by (destruct Hextra as [-> | (v & ->)]; cbn; rewrite ?Hset; reflexivity).
  now rewrite Hex, app_nil_r.
Qed.

(** ** What a stream fetches, and what it reports *)

Lemma streamFetch_poll c imdbID :
  streamFetch c imdbID (fetchOf c (pollCall imdbID)).
Proof.
  unfold streamFetch, fetchOf, pollCall. cbn.
  repeat split; auto.
Qed.

Lemma streamFetch_pagesDown c imdbID n :
  Forall (streamFetch c imdbID) (map (fetchOf c) (pagesDown imdbID n)).
Proof.
  apply Forall_forall. intros x Hin.
  apply in_map_iff in Hin. destruct Hin as (o & <- & Hin).
  unfold pagesDown in Hin. apply in_map_iff in Hin.
  destruct Hin as (j & <- & Hin). apply in_rev, in_seq in Hin.
  unfold streamFetch, fetchOf, resyncCall. cbn.
  repeat split; auto. right. split; [lia|reflexivity].
Qed.

Lemma Forall_firstn_of {A} (P : A -> Prop) k : forall l : list A,
  Forall P l -> Forall P (firstn k l).
Proof.
  induction k as [|k IH]; intros [|a l] H; cbn; auto.
  inversion H; subst. constructor; auto.
Qed.

Lemma fullStreamResync_fetches_good c imdbID e :
  Forall (streamFetch c imdbID)
         (fetches (trace_of (fullStreamResync c imdbID e))).
Proof.
  unfold fullStreamResync. fold (pollCall imdbID).
  destruct (run_GetTorrents c (pollCall imdbID) e)
    as (k0 & e1 & Hab & [(r & s & Hs & Hget)|(Hn & Hget)]).
  - rewrite (bind_Ret _ _ _ _ _ _ Hget).
    destruct r as [err|page].
    + destruct (run_send (errEvent err) (mkEnv s (ctx_done e1)))
        as (k2 & e2 & Hsend & Hab2).
      rewrite (bind_Ret _ _ _ _ _ _ Hsend). cbn [ret]. run_norm.
      rewrite fetches_visible. vis.
      constructor; [apply streamFetch_poll|constructor].
    + destruct (Page.TorrentsCount page =? 0) eqn:Hc.
      * cbn [ret]. run_norm. rewrite app_nil_r.
        rewrite fetches_visible. vis.
        constructor; [apply streamFetch_poll|constructor].
      * cbv zeta. run_norm.
        destruct (resyncBackwards_fetches c imdbID
                    (Z.to_nat (pageCount (Page.TorrentsCount page))) 0
                    (mkEnv s (ctx_done e1))) as (k & Hk & Hf & _).
        rewrite fetches_app, Hf.
        rewrite (fetches_visible (ActRequest _ _ _ :: _)). vis.
        constructor; [apply streamFetch_poll|].
        apply Forall_firstn_of, streamFetch_pagesDown.
  - rewrite (bind_Blocked _ _ _ _ _ Hget). run_norm.
    rewrite fetches_visible. vis.
    constructor; [apply streamFetch_poll|constructor].
Qed.

Lemma failures_succeeded rs : Forall succeeded rs -> failures rs = [].
Proof.
  induction 1 as [|x rs (page & Hp) _ IH]; [reflexivity|].
  destruct x as [o r]. cbn in Hp. subst r.
  unfold failures in *. cbn. exact IH.
Qed.

Lemma wellFormed_okEvents ts : Forall wellFormed (map okEvent ts).
Proof.
  apply Forall_forall. intros ev Hin. apply in_map_iff in Hin.
  destruct Hin as (t & <- & _). left. now exists t.
Qed.

Lemma fullStreamResync_reports c imdbID e :
  let tr := trace_of (fullStreamResync c imdbID e) in
  errors tr = failures (responses tr) /\ Forall wellFormed (sent tr).
Proof.
  cbv zeta.
  destruct (fullStreamResync_inv c imdbID e)
    as (_ & _ & _ & _ & _ & _ & [Hall Hse _|o err pre Hre Hall Hse _ _]).
  - rewrite errors_sent, Hse, errors_okEvents, (failures_succeeded _ Hall).
    split; [reflexivity|apply wellFormed_okEvents].
  - rewrite errors_sent, Hse, Hre, flat_map_app, failures_app, errors_okEvents,
      (failures_succeeded _ Hall).
    split; [reflexivity|].
    apply Forall_app. split; [apply wellFormed_okEvents|].
    constructor; [|constructor]. right. now exists err.
Qed.

Lemma pollLoop_reports fuel c imdbID d : forall cur e,
  let tr := trace_of (pollLoop fuel c imdbID d cur e) in
  Forall (streamFetch c imdbID) (fetches tr) /\
  errors tr = failures (responses tr) /\
  Forall wellFormed (sent tr).
Proof.
  induction fuel as [|fuel IH]; intros cur e tr; subst tr.
  - cbn. repeat split; constructor.
  - destruct (pollLoop_step fuel c imdbID d cur e)
      as [(k & e1 & _ & _ & Hx)|[(tr0 & e1 & Hx & Hv)|(tr0 & cur' & e1 & HT & _ & Hx)]];
      rewrite Hx; run_norm.
    + rewrite fetches_visible, errors_visible, responses_visible, sent_visible.
      vis. repeat split; constructor.
    + rewrite fetches_visible, errors_visible, responses_visible, sent_visible.
      destruct Hv as [Hv|Hv]; rewrite Hv; cbn; repeat split; try constructor.
      * apply streamFetch_poll.
      * constructor.
    + destruct (Tick_more _ _ _ _ _ _ HT) as (Hf & _ & He & Hw & _).
      destruct (IH cur' e1) as (IHf & IHe & IHw).
      rewrite fetches_app, errors_app, responses_app, failures_app, sent_app,
        Hf, He, IHe.
      split; [|split; [reflexivity|]].
      * constructor; [apply streamFetch_poll|exact IHf].
      * apply Forall_app. now split.
Qed.

(** X11: every fetch of a stream goes through the client's HTTP client
    with the request that [GetTorrents] builds for its options, to the fixed
    address of the API and for the key of the stream without its tt; it asks
    either for page 1 with limit 1 or for a page from 1 on with limit
    [MaxEZTVAPILimit], and never for anything else. *)
Theorem stream_fetches_only_its_own_pages c o e :
  Forall (streamFetch c (streamKey o))
         (fetches (trace_of (TorrentStream c o e))).
Proof.
  destruct (String.eqb_spec (streamKey o) "") as [Hkey|Hkey].
  - destruct (TorrentStream_shape c o e) as [k _ Htr _|? ? ? ? ? Hk].
    + rewrite Htr, fetches_visible. vis. constructor.
    + contradiction.
  - destruct (stream_parts c o e Hkey) as (fuel & cur1 & e1 & Hparts).
    unfold fetches at 1.
    rewrite Hparts by reflexivity.
    apply Forall_app. split.
    + destruct (StreamOptions.LastTorrentID o =? 0); [|constructor].
      apply fullStreamResync_fetches_good.
    + apply pollLoop_reports.
Qed.

(** X12: the error events of a stream are the error for the missing key,
    when the key is empty, and otherwise exactly the errors of the fetches
    that failed, one event for each and in the order of the fetches: no
    failure is dropped and no other error is reported. *)
Theorem stream_reports_every_failed_fetch c o e :
  let tr := trace_of (TorrentStream c o e) in
  errors tr
  = (if String.eqb (streamKey o) "" then [ErrMissingImdbID] else [])
      ++ failures (responses tr).
Proof.
  cbv zeta.
  destruct (String.eqb_spec (streamKey o) "") as [Hkey|Hkey].
  - destruct (TorrentStream_shape c o e) as [k _ Htr _|? ? ? ? ? Hk].
    + rewrite Htr, errors_visible, responses_visible. vis. reflexivity.
    + contradiction.
  - destruct (stream_parts c o e Hkey) as (fuel & cur1 & e1 & Hparts).
    unfold errors at 1. unfold responses at 1.
    rewrite !Hparts by reflexivity.
    rewrite failures_app. cbn [app]. f_equal.
    + destruct (StreamOptions.LastTorrentID o =? 0); [|reflexivity].
      apply fullStreamResync_reports.
    + apply pollLoop_reports.
Qed.

(** X13: every event of a stream carries either a torrent and no error or
    an error and no torrent. *)
Theorem stream_events_are_item_or_error c o e :
  Forall wellFormed (sent (trace_of (TorrentStream c o e))).
Proof.
  destruct (String.eqb_spec (streamKey o) "") as [Hkey|Hkey].
  - destruct (TorrentStream_shape c o e) as [k _ Htr _|? ? ? ? ? Hk].
    + rewrite Htr, sent_visible. vis.
      constructor; [|constructor]. right. now eexists.
    + contradiction.
  - destruct (stream_parts c o e Hkey) as (fuel & cur1 & e1 & Hparts).
    unfold sent at 1.
    rewrite Hparts by reflexivity.
    apply Forall_app. split.
    + destruct (StreamOptions.LastTorrentID o =? 0); [|constructor].
      apply fullStreamResync_reports.
    + apply pollLoop_reports.
Qed.

(** ** A stream whose context is never cancelled *)

Lemma steady_ret {A} (a : A) : steady (ret a).
Proof. intros e He. exact He. Qed.

Lemma steady_act a : steady (act a).
Proof. intros e He. exact He. Qed.

Lemma steady_bind {A B} (m : M A) (f : A -> M B) :
  steady m -> (forall a, steady (f a)) -> steady (bind m f).
Proof.
  intros Hm Hf e He. specialize (Hm e He). unfold bind.
  destruct (m e) as [[tr1 [a| |]] e1]; cbn in *; auto.
  specialize (Hf a e1 Hm).
  destruct (f a e1) as [[tr2 r] e2]. exact Hf.
Qed.

Lemma absorbed_never k e e1 :
  neverCancelled e -> absorbed k e e1 -> k = O /\ e1 = e.
Proof.
  intros (_ & Hn) (Hs & _ & _ & Hk).
  destruct k as [|k]; [auto|].
  exfalso. apply Hn. rewrite Hs. now left.
Qed.

Lemma steady_absorb : steady absorb.
Proof.
  intros e He. destruct (run_absorb e) as (k & e1 & Hrun & Hab).
  rewrite Hrun. destruct (absorbed_never _ _ _ He Hab) as (_ & ->). exact He.
Qed.

Lemma neverCancelled_tail ev s done :
  neverCancelled (mkEnv (ev :: s) done) -> neverCancelled (mkEnv s done).
Proof.
  intros (Hd & Hn). split; [exact Hd|].
  intros Hin. apply Hn. now right.
Qed.

Lemma steady_awaitResponse o : steady (awaitResponse o).
Proof.
  intros [s done] He. unfold awaitResponse. cbn [script ctx_done].
  destruct s as [|[| |r] s]; try exact He.
  cbn. eapply neverCancelled_tail. exact He.
Qed.

Lemma steady_send ev : steady (send ev).
Proof.
  apply steady_bind; [apply steady_absorb|intros _; apply steady_act].
Qed.

Lemma steady_GetTorrents c o : steady (GetTorrents c o).
Proof.
  apply steady_bind; [apply steady_act|intros _].
  apply steady_bind; [apply steady_absorb|intros _].
  apply steady_awaitResponse.
Qed.

Lemma steady_emitTorrents ts : forall cur, steady (emitTorrents ts cur).
Proof.
  induction ts as [|t ts IH]; intros cur; [apply steady_ret|].
  cbn [emitTorrents].
  apply steady_bind; [apply steady_send|intros _].
  apply steady_bind; [apply steady_act|intros _]. apply IH.
Qed.

Lemma steady_resyncBackwards c imdbID i :
  forall cur, steady (resyncBackwards c imdbID i cur).
Proof.
  induction i as [|i IH]; intros cur; [apply steady_ret|].
  cbn [resyncBackwards].
  apply steady_bind; [apply steady_GetTorrents|intros [err|page]].
  - apply steady_bind; [apply steady_send|intros _; apply steady_ret].
  - apply steady_bind; [apply steady_emitTorrents|intros v; apply IH].
Qed.

Lemma steady_fullStreamResync c imdbID : steady (fullStreamResync c imdbID).
Proof.
  apply steady_bind; [apply steady_GetTorrents|intros [err|page]].
  - apply steady_bind; [apply steady_send|intros _; apply steady_ret].
  - destruct (Page.TorrentsCount page =? 0); [apply steady_ret|].
    apply steady_resyncBackwards.
Qed.

Lemma pending_bind {A B} (m : M A) (f : A -> M B) :
  steady m -> (forall a, pending (f a)) -> pending (bind m f).
Proof.
  intros Hm Hf e He b. specialize (Hm e He). unfold bind.
  destruct (m e) as [[tr1 [a| |]] e1]; cbn in *; try discriminate.
  specialize (Hf a e1 Hm b).
  destruct (f a e1) as [[tr2 r] e2]. exact Hf.
Qed.

Lemma pending_pollLoop fuel c imdbID d :
  forall cur, pending (pollLoop fuel c imdbID d cur).
Proof.
  induction fuel as [|fuel IH]; intros cur e He a; [discriminate|].
  cbn [pollLoop].
  destruct (run_select d e)
    as (k & e1 & Hab & [(Hd & Hsel)|[(Hd & s & Hs & Hsel)|(Hd & Hn & Hsel)]]);
    destruct (absorbed_never _ _ _ He Hab) as (_ & ->).
  - destruct He as (He & _). congruence.
  - rewrite (bind_Ret _ _ _ _ _ _ Hsel). run_norm.
    assert (He1 : neverCancelled (mkEnv s false)).
    { destruct e as [s0 done]. cbn in Hs. subst s0.
      destruct He as (Hdone & Hn). cbn in Hdone. subst done.
      eapply neverCancelled_tail. split; [reflexivity|exact Hn]. }
    revert He1. generalize (mkEnv s false). intros e2 He2. revert e2 He2 a.
    apply pending_bind; [apply steady_GetTorrents|intros [err|page]].
    + apply pending_bind; [apply steady_send|intros _; apply IH].
    + destruct (Page.Torrents page) as [|t0 ts]; [apply IH|].
      destruct (Torrent.ID t0 <=? cur); [apply IH|].
      apply pending_bind; [apply steady_act|intros _].
      apply pending_bind; [apply steady_send|intros _; apply IH].
  - rewrite (bind_Blocked _ _ _ _ _ Hsel). discriminate.
Qed.

Lemma pending_streamBody fuel c o :
  streamKey o <> "" -> pending (streamBody fuel c o).
Proof.
  intros Hkey. unfold streamBody. fold (streamKey o).
  apply String.eqb_neq in Hkey. rewrite Hkey. cbv zeta.
  apply pending_bind; [|intros v; apply pending_pollLoop].
  destruct (StreamOptions.LastTorrentID o =? 0); [|apply steady_ret].
  apply steady_bind; [apply steady_fullStreamResync|intros v].
  apply steady_bind; [apply steady_act|intros _; apply steady_ret].
Qed.

(** X14: a stream with a key ends only by cancellation: as long as its
    context is not cancelled, the goroutine does not return and the
    channel is not closed, whatever the fetches answer; having done what
    the timers and responses that came allow, it waits. *)
Theorem stream_ends_only_by_cancellation c o e :
  streamKey o <> "" ->
  neverCancelled e ->
  let x := TorrentStream c o e in
  outcome_of x = Blocked /\
  ~ In ActClose (trace_of x) /\
  ~ In ActCtxDone (trace_of x).
Proof.
  intros Hkey He x. subst x.
  pose proof (pending_streamBody (S (List.length (script e))) c o Hkey e He tt)
    as Hbody.
  assert (Hout : outcome_of (TorrentStream c o e) <> Ret tt).
  { unfold TorrentStream, deferClose.
    rewrite (bind_Ret _ _ e [ActGo] tt e eq_refl).
    destruct (streamBody (S (List.length (script e))) c o e)
      as [[tr [[]| |]] e1] eqn:Hb.
    - now contradiction Hbody.
    - rewrite (bind_Blocked _ _ _ _ _ Hb). discriminate.
    - rewrite (bind_OutOfFuel _ _ _ _ _ Hb). discriminate. }
  destruct (TorrentStream_shape c o e)
    as [k Hk _ _|tr1 cur1 fuel e1 closing _ Htr _ _ Hd1 Hc1 _ _ _ Hc];
    [contradiction|].
  destruct Hc as [(-> & Ho & Hd2)|(_ & Ho & _)]; [|contradiction].
  split; [exact Ho|]. rewrite Htr, app_nil_r.
  destruct (pollLoop_return c (streamKey o) (streamInterval o) fuel cur1 e1)
    as (Hc2 & _).
  split; intros [Hin|Hin]; try discriminate;
    apply in_app_or in Hin; tauto.
Qed.

Lemma stream_ends_only_by_cancellation_witness :
  outcome_of (TorrentStream (New []) (StreamOptions.mk "tt7908628" 5 0)
                            (mkEnv [EvTimer; EvResponse (inl (ErrUpstream "timeout"))] false))
  = Blocked.
Proof.
  apply (stream_ends_only_by_cancellation
           (New []) (StreamOptions.mk "tt7908628" 5 0)
           (mkEnv [EvTimer; EvResponse (inl (ErrUpstream "timeout"))] false)).
  - vm_compute. discriminate.
  - split; [reflexivity|]. cbn. intuition discriminate.
Defined.

(** ** Where the items of a stream come from *)

Lemma fetchedTorrents_app a b :
  fetchedTorrents (a ++ b) = fetchedTorrents a ++ fetchedTorrents b.
Proof. apply flat_map_app. Qed.

Lemma resyncItems_fetched rs t :
  In t (flat_map resyncPage rs) -> In t (fetchedTorrents rs).
Proof.
  induction rs as [|[o [err|page]] rs IH]; cbn; auto.
  unfold resyncPage at 1. cbn [fst snd]. intros Hin.
  apply in_or_app. apply in_app_or in Hin. destruct Hin as [Hin|Hin]; auto.
  left. destruct (URLOptions.Limit o =? MaxEZTVAPILimit); [|destruct Hin].
  now apply in_rev.
Qed.

Lemma newestOf_fetched rs t : In t (newestOf rs) -> In t (fetchedTorrents rs).
Proof.
  induction rs as [|[o [err|page]] rs IH]; cbn; auto.
  intros Hin. apply in_or_app. apply in_app_or in Hin.
  destruct Hin as [Hin|Hin]; auto.
  left. destruct (Page.Torrents page) as [|t0 ts]; [destruct Hin|].
  cbn in Hin. destruct Hin as [<-|[]]. now left.
Qed.

Lemma pollLoop_items_fetched fuel c imdbID d : forall cur e,
  let tr := trace_of (pollLoop fuel c imdbID d cur e) in
  forall t, In t (items tr) -> In t (fetchedTorrents (responses tr)).
Proof.
  induction fuel as [|fuel IH]; intros cur e tr; subst tr.
  - cbn. tauto.
  - destruct (pollLoop_step fuel c imdbID d cur e)
      as [(k & e1 & _ & _ & Hx)|[(tr0 & e1 & Hx & Hv)|(tr0 & cur' & e1 & HT & _ & Hx)]];
      rewrite Hx; run_norm.
    + rewrite items_visible. vis. intros t [].
    + rewrite items_visible.
      destruct Hv as [Hv|Hv]; rewrite Hv; intros t [].
    + destruct (Tick_more _ _ _ _ _ _ HT) as (_ & _ & _ & _ & Hit).
      intros t. rewrite items_app, responses_app, fetchedTorrents_app.
      intros Hin. apply in_or_app. apply in_app_or in Hin.
      destruct Hin as [Hin|Hin]; [left|right; now apply IH].
      destruct Hit as [Hit|(t0 & Hit & Hn)]; rewrite Hit in Hin; [destruct Hin|].
      apply newestOf_fetched. now rewrite Hn.
Qed.

(** X15: a stream emits no torrent of its own making: every item it emits
    is a torrent of a page that one of its fetches returned. *)
Theorem stream_items_come_from_fetched_pages c o e :
  let tr := trace_of (TorrentStream c o e) in
  forall t, In t (items tr) -> In t (fetchedTorrents (responses tr)).
Proof.
  cbv zeta.
  destruct (String.eqb_spec (streamKey o) "") as [Hkey|Hkey].
  - destruct (TorrentStream_shape c o e) as [k _ Htr _|? ? ? ? ? Hk].
    + rewrite Htr, items_visible. vis. intros t [].
    + contradiction.
  - destruct (stream_parts c o e Hkey) as (fuel & cur1 & e1 & Hparts).
    unfold items at 1. unfold responses at 1.
    rewrite !Hparts by reflexivity.
    intros t Hin. rewrite fetchedTorrents_app.
    apply in_or_app. apply in_app_or in Hin.
    destruct Hin as [Hin|Hin].
    + left. destruct (StreamOptions.LastTorrentID o =? 0); [|destruct Hin].
      apply resyncItems_fetched.
      destruct (fullStreamResync_inv c (streamKey o) e) as (Hit & _).
      unfold resyncItems, items, responses in Hit. rewrite <- Hit. exact Hin.
    + right. now apply pollLoop_items_fetched.
Qed.

Lemma stream_items_come_from_fetched_pages_witness :
  In (torrentWithID 7)
     (fetchedTorrents
        (responses
           (trace_of
              (TorrentStream
                 (New []) (StreamOptions.mk "tt7908628" 5 0)
                 (mkEnv [EvTimer;
                         EvResponse (inr (Page.mk "7908628" 1 1 1
                                                  [torrentWithID 7]))]
                        false))))).
Proof.
  apply (stream_items_come_from_fetched_pages
           (New []) (StreamOptions.mk "tt7908628" 5 0)
           (mkEnv [EvTimer;
                   EvResponse (inr (Page.mk "7908628" 1 1 1 [torrentWithID 7]))]
                  false)).
  vm_compute. left. reflexivity.
Defined.
